(** * Conflict detection engine (lib/conflicts.js): a shallow embedding

    The heuristic matcher, candidate discovery, AI verification and the
    conflict ledger of the knowledge-base conflict engine, translated
    function by function from the JavaScript source, followed by the
    properties proved about them.

    Modelling conventions:
    - JS strings are [string] (8-bit characters); [toLowerCase], [\w] and
      [\s] are the ASCII ones, so the embedding covers ASCII text.
    - JS numbers that carry scores are exact rationals [Q]; counters and
      sizes are [nat].
    - A JS [Set] of strings is an insertion-ordered list without
      duplicates ([JsSet]); a JS [Map] is an association list in insertion
      order.
    - [new Date(x).getTime()] is [option Z]; [None] is [NaN].
    - Record fields guarded in the source by [|| ''] or [|| []] are taken
      as present; an absent list is the empty list. *)

From Stdlib Require Import String Ascii List Bool ZArith QArith Lia Lqa.
From Stdlib Require Import DecimalString.
From stdpp Require Import base decidable list strings gmap.
Import ListNotations.
Open Scope string_scope.
Open Scope list_scope.
Open Scope nat_scope.
Set Warnings "-clear-no-such-hyp".

(* ------------------------------------------------------------------ *)
(** ** Characters and strings *)

Module Text.

Definition code (c : ascii) : nat := nat_of_ascii c.

Definition isLower (c : ascii) : bool := (97 <=? code c) && (code c <=? 122).
Definition isUpper (c : ascii) : bool := (65 <=? code c) && (code c <=? 90).
Definition isDigit (c : ascii) : bool := (48 <=? code c) && (code c <=? 57).

(** [\w] of a JS regular expression: letters, digits and underscore. *)
Definition isWordChar (c : ascii) : bool :=
  isLower c || isUpper c || isDigit c || (code c =? 95).

(** [\s] restricted to ASCII: tab, line feed, vertical tab, form feed,
    carriage return and space. *)
Definition isSpace (c : ascii) : bool :=
  ((9 <=? code c) && (code c <=? 13)) || (code c =? 32).

Definition lowerChar (c : ascii) : ascii :=
  if isUpper c then ascii_of_nat (code c + 32) else c.

Fixpoint mapChars (f : ascii -> ascii) (s : string) : string :=
  match s with
  | EmptyString => EmptyString
  | String c r => String (f c) (mapChars f r)
  end.

(** [s.toLowerCase()] *)
Definition toLowerCase (s : string) : string := mapChars lowerChar s.

(** [s.includes(sub)] *)
Fixpoint includes (s sub : string) : bool :=
  String.prefix sub s ||
  match s with
  | EmptyString => false
  | String _ r => includes r sub
  end.

(** [parts.join(sep)] *)
Fixpoint join (sep : string) (parts : list string) : string :=
  match parts with
  | [] => ""
  | [p] => p
  | p :: rest => p +:+ sep +:+ join sep rest
  end.

(** The double quote character, as a one-character string. *)
Definition dq : string := String (ascii_of_nat 34) EmptyString.

(** [text.replace(/([a-z])([A-Z])/g, '$1 $2')]: a space goes between a
    lower-case letter and the upper-case letter right after it. Two
    matches cannot overlap, since the second character of a match is
    upper-case and the first of the next one is lower-case. *)
Fixpoint splitCamel (s : string) : string :=
  match s with
  | EmptyString => EmptyString
  | String a rest =>
      match rest with
      | EmptyString => String a EmptyString
      | String b _ =>
          if isLower a && isUpper b
          then String a (String " " (splitCamel rest))
          else String a (splitCamel rest)
      end
  end.

(** [s.replace(/[^a-z0-9\-]/g, ' ')] *)
Definition keepChar (c : ascii) : bool :=
  isLower c || isDigit c || (code c =? 45).

Definition blankOthers (s : string) : string :=
  mapChars (fun c => if keepChar c then c else " "%char) s.

(** [s.split(/[\s\-]+/)]: the pieces between maximal runs of separator
    characters; a separator at either end leaves an empty piece there. *)
Definition isSplitSep (c : ascii) : bool := isSpace c || (code c =? 45).

Fixpoint splitAux (s : string) (cur : string) (prevSep : bool) : list string :=
  match s with
  | EmptyString => [cur]
  | String c r =>
      if isSplitSep c
      then (if prevSep then splitAux r "" true else cur :: splitAux r "" true)
      else splitAux r (cur +:+ String c EmptyString) false
  end.

Definition splitWords (s : string) : list string := splitAux s "" false.

End Text.

(* ------------------------------------------------------------------ *)
(** ** JS [Set] of strings *)

Module JsSet.

(** Insertion-ordered, duplicate-free list of strings. *)
Abbreviation t := (list string) (only parsing).

Definition has (s : t) (x : string) : bool := existsb (String.eqb x) s.

Definition add (s : t) (x : string) : t := if has s x then s else s ++ [x].

(** [new Set(xs)] *)
Definition ofList (xs : list string) : t := fold_left add xs [].

Definition size (s : t) : nat := length s.

End JsSet.

(* ------------------------------------------------------------------ *)
(** ** Constants *)

Module Patterns.

(** Words and phrases that signal negation or reversal of a prior position. *)
Definition NEGATION_WORDS : list string :=
  ["don't"; "avoid"; "instead"; "rather than"; "not"; "never"; "stop";
   "switch from"; "migrate from"; "replace"; "drop"; "remove"; "abandon";
   "actually"; "changed"; "reconsidered"; "on second thought"; "turns out";
   "better alternative"; "worse than expected"; "doesn't work"; "failed"].

(** Phrases by which the author overrides an earlier opinion. *)
Definition TEMPORAL_OVERRIDE_PHRASES : list string :=
  ["actually"; "changed my mind"; "on second thought"; "after testing";
   "after trying"; "after further review"; "after more research";
   "i was wrong"; "turns out"; "in hindsight"; "reconsidered";
   "updated my thinking"; "revised my approach"; "new approach";
   "better approach"; "going forward"; "instead we should"; "no longer";
   "decided against"; "backed off from"; "moved away from"; "pivoted to";
   "pivoting to"; "switching to"].

(** Common English stopwords left out of keyword extraction. *)
Definition STOPWORDS : list string :=
  ["a"; "an"; "the"; "and"; "or"; "but"; "in"; "on"; "at"; "to"; "for";
   "of"; "with"; "by"; "from"; "is"; "it"; "as"; "be"; "was"; "were";
   "been"; "are"; "am"; "do"; "does"; "did"; "has"; "had"; "have"; "will";
   "would"; "could"; "should"; "may"; "might"; "can"; "shall"; "not"; "no";
   "this"; "that"; "these"; "those"; "i"; "you"; "he"; "she"; "we"; "they";
   "me"; "him"; "her"; "us"; "them"; "my"; "your"; "his"; "its"; "our";
   "their"; "what"; "which"; "who"; "whom"; "how"; "when"; "where"; "why";
   "if"; "then"; "else"; "so"; "up"; "out"; "about"; "into"; "over";
   "after"; "before"; "between"; "under"; "again"; "just"; "also"; "than";
   "very"; "too"; "some"; "any"; "all"; "each"; "every"; "both"; "few";
   "more"; "most"; "other"; "such"; "only"; "same"; "here"; "there"; "now";
   "then"; "once"; "still"; "already"; "much"; "many"; "well"; "back";
   "even"; "new"; "way"; "use"; "like"; "get"; "make"; "go"; "know";
   "take"; "see"; "come"; "think"; "look"; "want"; "give"; "need"; "tell";
   "say"; "try"; "ask"; "work"; "seem"; "feel"; "let"; "keep"; "help";
   "show"; "put"; "set"; "run"; "move"; "play"; "turn"; "being"; "thing";
   "things"; "really"; "using"; "used"; "one"; "two"; "first"; "last";
   "long"; "great"; "little"; "own"; "old"; "right"; "while"; "able";
   "done"; "going"; "something"; "anything"; "everything"; "nothing"].

(** Pairs of contradictory adjectives. *)
Definition CONTRADICTORY_ADJECTIVE_PAIRS : list (string * string) :=
  [("fast", "slow"); ("simple", "complex"); ("easy", "difficult");
   ("lightweight", "heavy"); ("lightweight", "bloated");
   ("secure", "insecure"); ("scalable", "unscalable");
   ("reliable", "unreliable"); ("stable", "unstable");
   ("performant", "slow"); ("modern", "outdated");
   ("recommended", "deprecated"); ("good", "bad"); ("best", "worst");
   ("better", "worse"); ("efficient", "inefficient"); ("clean", "messy");
   ("maintainable", "unmaintainable"); ("readable", "unreadable");
   ("flexible", "rigid"); ("mature", "immature")].

(** Minimum heuristic score a candidate must reach to be stored or
    forwarded to AI verification. *)
Definition HEURISTIC_SCORE_THRESHOLD : Q := 0.3.

(** Minimum AI confidence score required to persist a verified conflict. *)
Definition AI_CONFIDENCE_THRESHOLD : Q := 0.6.

(** Maximum number of concurrent AI verification requests. *)
Definition MAX_CONCURRENT_AI_REQUESTS : nat := 5.

End Patterns.

(* ------------------------------------------------------------------ *)
(** ** Regular expressions

    A backtracking matcher for the fragment of JS regular expressions
    that the technology-switch patterns use: case-insensitive literals,
    greedy [c+] over a character class, sequence, alternation, greedy
    optional groups and capturing groups. Alternatives are tried left
    to right and the longer repetition first, as in JS. *)

Module Regex.

Inductive t : Type :=
| Lit (s : string)
| Plus (cls : ascii -> bool)
| Seq (r1 r2 : t)
| Alt (r1 r2 : t)
| Opt (r : t)
| Group (n : nat) (r : t).

Fixpoint seqs (rs : list t) : t :=
  match rs with
  | [] => Lit ""
  | [r] => r
  | r :: rest => Seq r (seqs rest)
  end.

(** Captured groups, latest first. *)
Definition Caps := list (nat * string).

Fixpoint capture (n : nat) (caps : Caps) : option string :=
  match caps with
  | [] => None
  | (m, s) :: rest => if n =? m then Some s else capture n rest
  end.

(** The input left after a literal, compared without case (flag [i]). *)
Fixpoint litMatch (lit s : string) : option string :=
  match lit with
  | EmptyString => Some s
  | String a lit' =>
      match s with
      | EmptyString => None
      | String b s' =>
          if Ascii.eqb (Text.lowerChar a) (Text.lowerChar b)
          then litMatch lit' s' else None
      end
  end.

Section Matcher.
  Context {R : Type}.

  (** Zero or more characters of [cls], longest first; [n] counts the
      characters consumed since the start of the match. *)
Fixpoint star (cls : ascii -> bool) (s : string) (n : nat)
           (k : string -> nat -> option R) : option R :=
    match s with
    | EmptyString => k s n
    | String c r =>
        if cls c
        then match star cls r (S n) k with
             | Some x => Some x
             | None => k s n
             end
        else k s n
    end.

Definition plus (cls : ascii -> bool) (s : string) (n : nat)
             (k : string -> nat -> option R) : option R :=
    match s with
    | EmptyString => None
    | String c r => if cls c then star cls r (S n) k else None
    end.

  (** [run r inp s n caps k]: match [r] against [s], the input [inp]
      without its first [n] characters, then continue with [k]. *)
Fixpoint run (r : t) (inp s : string) (n : nat) (caps : Caps)
           (k : string -> nat -> Caps -> option R) : option R :=
    match r with
    | Lit l =>
        match litMatch l s with
        | Some s' => k s' (n + String.length l) caps
        | None => None
        end
    | Plus cls => plus cls s n (fun s' n' => k s' n' caps)
    | Seq r1 r2 =>
        run r1 inp s n caps (fun s' n' caps' => run r2 inp s' n' caps' k)
    | Alt r1 r2 =>
        match run r1 inp s n caps k with
        | Some x => Some x
        | None => run r2 inp s n caps k
        end
    | Opt r1 =>
        match run r1 inp s n caps k with
        | Some x => Some x
        | None => k s n caps
        end
    | Group g r1 =>
        run r1 inp s n caps
            (fun s' n' caps' =>
               k s' n' ((g, String.substring n (n' - n) inp) :: caps'))
    end.
End Matcher.

(** The result of a successful match: [m[0]] and the groups. *)
Record Match := { matched : string; groups : Caps }.

(** A match of [r] that starts at the first character of [s]. *)
Definition matchAt (r : t) (s : string) : option Match :=
  run r s s 0 []
      (fun _ n caps =>
         Some {| matched := String.substring 0 n s; groups := caps |}).

(** [s.match(r)] for a regular expression without the [g] flag: the
    match at the leftmost position that has one. *)
Fixpoint exec (r : t) (s : string) : option Match :=
  match matchAt r s with
  | Some m => Some m
  | None =>
      match s with
      | EmptyString => None
      | String _ rest => exec r rest
      end
  end.

End Regex.

Module TechPatterns.
Import Regex.

Definition ws : t := Plus Text.isSpace.
Definition word (n : nat) : t := Group n (Plus Text.isWordChar).

(** [/switch(?:ed|ing)?\s+(?:from\s+)?(\w+)\s+to\s+(\w+)/i] *)
Definition switchTo : t :=
  seqs [Lit "switch"; Opt (Alt (Lit "ed") (Lit "ing")); ws;
        Opt (Seq (Lit "from") ws); word 1; ws; Lit "to"; ws; word 2].

(** [/migrat(?:e|ed|ing)\s+(?:from\s+)?(\w+)\s+to\s+(\w+)/i] *)
Definition migrateTo : t :=
  seqs [Lit "migrat"; Alt (Lit "e") (Alt (Lit "ed") (Lit "ing")); ws;
        Opt (Seq (Lit "from") ws); word 1; ws; Lit "to"; ws; word 2].

(** [/replac(?:e|ed|ing)\s+(\w+)\s+with\s+(\w+)/i] *)
Definition replaceWith : t :=
  seqs [Lit "replac"; Alt (Lit "e") (Alt (Lit "ed") (Lit "ing")); ws;
        word 1; ws; Lit "with"; ws; word 2].

(** [/(\w+)\s+(?:is|was)\s+better\s+than\s+(\w+)/i] *)
Definition betterThan : t :=
  seqs [word 1; ws; Alt (Lit "is") (Lit "was"); ws; Lit "better"; ws;
        Lit "than"; ws; word 2].

Definition TECH_SWITCH_PATTERNS : list t :=
  [switchTo; migrateTo; replaceWith; betterThan].

End TechPatterns.

(* ------------------------------------------------------------------ *)
(** ** Numbers *)

Module Num.

Definition ofNat (n : nat) : Q := inject_Z (Z.of_nat n).

(** [x < y] on numbers. *)
Definition ltb (x y : Q) : bool := negb (Qle_bool y x).

(** [Math.min(x, y)] *)
Definition min (x y : Q) : Q := if Qle_bool x y then x else y.

End Num.

(* ------------------------------------------------------------------ *)
(** ** Records of the knowledge base *)

Module Summary.
Record t := {
  id : string;
  topicId : option string;       (* [None]: null or undefined *)
  title : string;
  summary : string;
  decisions : list string;
  keyInsights : list string;
  tags : list string;
  createdAt : option Z           (* [new Date(createdAt).getTime()] *)
}.
End Summary.

Module Topic.
Record t := { id : string; tags : list string }.
End Topic.

(* ------------------------------------------------------------------ *)
(** ** Text utilities and the pairwise matcher *)

Module Matcher.
Import Text Patterns.

(** Tokenize a string into lowercase meaningful words: splits camelCase,
    strips punctuation, removes stopwords and duplicates. *)
Definition tokenize (text : string) : list string :=
  if String.eqb text "" then [] else
  let expanded := splitCamel text in
  let words :=
    List.filter
      (fun w => (2 <=? String.length w) && negb (JsSet.has STOPWORDS w))
      (splitWords (blankOthers (toLowerCase expanded))) in
  JsSet.ofList words.

(** All keywords of a summary's title, decisions, insights and tags. *)
Definition extractKeywords (s : Summary.t) : JsSet.t :=
  let sources :=
    [Summary.title s] ++ Summary.decisions s ++ Summary.keyInsights s
      ++ Summary.tags s in
  fold_left (fun tokens source => fold_left JsSet.add (tokenize source) tokens)
            sources [].

(** The loop [for (item of setA) if (setB.has(item)) intersection++]. *)
Definition countShared (setA setB : JsSet.t) : nat :=
  fold_left (fun n item => if JsSet.has setB item then S n else n) setA 0.

(** Jaccard similarity coefficient of two sets. *)
Definition jaccardSimilarity (setA setB : JsSet.t) : Q :=
  if (JsSet.size setA =? 0) && (JsSet.size setB =? 0) then 0%Q else
  let intersection := countShared setA setB in
  let union := JsSet.size setA + JsSet.size setB - intersection in
  if union =? 0 then 0%Q else (Num.ofNat intersection / Num.ofNat union)%Q.

(** Overlap coefficient of two tag arrays, without case. *)
Definition tagOverlap (tagsA tagsB : list string) : Q :=
  if (length tagsA =? 0) || (length tagsB =? 0) then 0%Q else
  let setA := JsSet.ofList (map toLowerCase tagsA) in
  let setB := JsSet.ofList (map toLowerCase tagsB) in
  let intersection := countShared setA setB in
  let minSize := Nat.min (JsSet.size setA) (JsSet.size setB) in
  if minSize =? 0 then 0%Q else (Num.ofNat intersection / Num.ofNat minSize)%Q.

(** The phrases that occur in the text, without case. *)
Definition findMatchingPhrases (text : string) (phrases : list string)
  : list string :=
  if String.eqb text "" then [] else
  let lower := toLowerCase text in
  List.filter (fun phrase => includes lower (toLowerCase phrase)) phrases.

Record Switch := { from : string; to : string; pattern : string }.

(** One pattern of [detectTechSwitches]: [text.match(pattern)] and the
    switch built from its groups. Both groups take part in every match
    of the four patterns. *)
Definition switchOf (m : Regex.Match) : list Switch :=
  match Regex.capture 1 (Regex.groups m), Regex.capture 2 (Regex.groups m) with
  | Some g1, Some g2 =>
      [{| from := toLowerCase g1; to := toLowerCase g2;
          pattern := Regex.matched m |}]
  | _, _ => []
  end.

Definition matchSwitch (p : Regex.t) (text : string) : list Switch :=
  match Regex.exec p text with
  | Some m => switchOf m
  | None => []
  end.

(** Technology switches found by the switch patterns. *)
Definition detectTechSwitches (text : string) : list Switch :=
  if String.eqb text "" then [] else
  flat_map (fun p => matchSwitch p text) TechPatterns.TECH_SWITCH_PATTERNS.

Record AdjectivePair := { adjA : string; adjB : string }.

(** Contradictory adjective usage between two texts. *)
Definition findContradictoryAdjectives (textA textB : string)
  : list AdjectivePair :=
  if String.eqb textA "" || String.eqb textB "" then [] else
  let lowerA := toLowerCase textA in
  let lowerB := toLowerCase textB in
  flat_map
    (fun '(adj1, adj2) =>
       if (includes lowerA adj1 && includes lowerB adj2)
          || (includes lowerA adj2 && includes lowerB adj1)
       then [{| adjA := if includes lowerA adj1 then adj1 else adj2;
                adjB := if includes lowerB adj1 then adj1 else adj2 |}]
       else [])
    CONTRADICTORY_ADJECTIVE_PAIRS.

Inductive ContentType := decision | insight | summaryLevel.

Record Item := { text : string; type : ContentType }.

Record PairCandidate := {
  olderContent : string;
  newerContent : string;
  olderContentType : ContentType;
  newerContentType : ContentType;
  signals : list string;
  score : Q
}.

(** The running [signals] array and [score] of one pair. *)
Definition Acc : Type := list string * Q.

Definition sharedTokens (olderTokens newerTokens : JsSet.t) : list string :=
  List.filter (JsSet.has newerTokens) olderTokens.

Definition quoted (parts : list string) : string :=
  dq +:+ join (dq +:+ ", " +:+ dq) parts +:+ dq.

Definition withShared (shared : list string) : string :=
  " with shared keywords [" +:+ join ", " shared +:+ "]".

(** Step 2: negation words in the newer item. *)
Definition negationStep (olderTokens newerTokens : JsSet.t)
           (newerText : string) (acc : Acc) : Acc :=
  let negationsInNewer := findMatchingPhrases newerText NEGATION_WORDS in
  if 0 <? length negationsInNewer then
    let shared := sharedTokens olderTokens newerTokens in
    if 0 <? length shared then
      (fst acc ++ ["negation_pattern: " +:+ quoted negationsInNewer
                     +:+ withShared shared],
       (snd acc + (0.25 + Num.ofNat (length negationsInNewer) * 0.05))%Q)
    else acc
  else acc.

(** Negation words in the older item. *)
Definition reverseNegationStep (olderTokens newerTokens : JsSet.t)
           (olderText : string) (acc : Acc) : Acc :=
  let negationsInOlder := findMatchingPhrases olderText NEGATION_WORDS in
  if 0 <? length negationsInOlder then
    let shared := sharedTokens olderTokens newerTokens in
    if 0 <? length shared then
      (fst acc ++ ["reverse_negation: older says " +:+ quoted negationsInOlder
                     +:+ withShared shared],
       (snd acc + 0.15)%Q)
    else acc
  else acc.

Definition techSwitchSignal (sw : Switch) : string :=
  "tech_switch: " +:+ dq +:+ pattern sw +:+ dq +:+ " (older mentions "
    +:+ from sw +:+ ")".

(** Step 3: technology switches of the newer item whose [from] the older
    item mentions. *)
Definition techSwitchStep (olderTokens : JsSet.t) (newerText : string)
           (acc : Acc) : Acc :=
  fold_left
    (fun a sw =>
       if JsSet.has olderTokens (from sw)
       then (fst a ++ [techSwitchSignal sw], (snd a + 0.35)%Q)
       else a)
    (detectTechSwitches newerText) acc.

(** Technology switches of the older item that the newer item touches. *)
Definition priorSwitchStep (newerTokens : JsSet.t) (olderText : string)
           (acc : Acc) : Acc :=
  fold_left
    (fun a sw =>
       if JsSet.has newerTokens (from sw) || JsSet.has newerTokens (to sw)
       then (fst a ++ ["prior_switch: older had " +:+ dq +:+ pattern sw +:+ dq],
             (snd a + 0.15)%Q)
       else a)
    (detectTechSwitches olderText) acc.

(** Step 4: contradictory adjectives. *)
Definition adjectiveStep (olderText newerText : string) (acc : Acc) : Acc :=
  fold_left
    (fun a c =>
       (fst a ++ ["contradictory_adjective: " +:+ dq +:+ adjA c +:+ dq
                    +:+ " vs " +:+ dq +:+ adjB c +:+ dq],
        (snd a + 0.2)%Q))
    (findContradictoryAdjectives olderText newerText) acc.

(** Step 5: temporal override phrases in the newer item. *)
Definition temporalStep (olderTokens newerTokens : JsSet.t)
           (newerText : string) (acc : Acc) : Acc :=
  let overrides := findMatchingPhrases newerText TEMPORAL_OVERRIDE_PHRASES in
  if 0 <? length overrides then
    let shared := sharedTokens olderTokens newerTokens in
    if 0 <? length shared then
      (fst acc ++ ["temporal_override: " +:+ quoted overrides
                     +:+ withShared shared],
       (snd acc + (0.2 + Num.ofNat (length overrides) * 0.05))%Q)
    else acc
  else acc.

(** Step 6: boost by the strength of the keyword overlap. *)
Definition boostStep (overlap : Q) (acc : Acc) : Acc :=
  if Num.ltb 0.15 overlap then (fst acc, (snd acc + overlap * 0.3)%Q) else acc.

(** Signals and uncapped score of a pair that passed the overlap gate. *)
Definition pairSignals (olderTokens newerTokens : JsSet.t)
           (olderText newerText : string) (overlap : Q) : Acc :=
  boostStep overlap
    (temporalStep olderTokens newerTokens newerText
       (adjectiveStep olderText newerText
          (priorSwitchStep newerTokens olderText
             (techSwitchStep olderTokens newerText
                (reverseNegationStep olderTokens newerTokens olderText
                   (negationStep olderTokens newerTokens newerText
                      ([], 0%Q))))))).

(** The body of the inner loop of [compareDecisions]. *)
Definition compareItems (olderItem : Item) (olderTokens : JsSet.t)
           (newerItem : Item) : list PairCandidate :=
  let newerTokens := JsSet.ofList (tokenize (text newerItem)) in
  if JsSet.size newerTokens =? 0 then [] else
  let overlap := jaccardSimilarity olderTokens newerTokens in
  if Num.ltb overlap 0.05 then [] else
  let acc := pairSignals olderTokens newerTokens (text olderItem)
                         (text newerItem) overlap in
  if 0 <? length (fst acc) then
    [{| olderContent := text olderItem;
        newerContent := text newerItem;
        olderContentType := type olderItem;
        newerContentType := type newerItem;
        signals := fst acc;
        score := Num.min (snd acc) 1.0 |}]
  else [].

Definition itemsOf (s : Summary.t) : list Item :=
  map (fun d => {| text := d; type := decision |}) (Summary.decisions s)
  ++ map (fun i => {| text := i; type := insight |}) (Summary.keyInsights s).

(** Compare the decisions and insights of two summaries. *)
Definition compareDecisions (older newer : Summary.t) : list PairCandidate :=
  let olderItems := itemsOf older in
  let newerItems := itemsOf newer in
  if (length olderItems =? 0) || (length newerItems =? 0) then [] else
  flat_map
    (fun olderItem =>
       let olderTokens := JsSet.ofList (tokenize (text olderItem)) in
       if JsSet.size olderTokens =? 0 then [] else
       flat_map (compareItems olderItem olderTokens) newerItems)
    olderItems.

(** Compare two summaries as wholes: title, summary text, decisions and
    insights together. *)
Definition compareSummaryLevel (older newer : Summary.t) : list PairCandidate :=
  let olderText :=
    join " " ([Summary.title older; Summary.summary older]
                ++ Summary.decisions older ++ Summary.keyInsights older) in
  let newerText :=
    join " " ([Summary.title newer; Summary.summary newer]
                ++ Summary.decisions newer ++ Summary.keyInsights newer) in
  let newerSwitches := detectTechSwitches newerText in
  let olderKeywords := extractKeywords older in
  let fromSwitches :=
    flat_map
      (fun sw =>
         if JsSet.has olderKeywords (from sw) then
           [{| olderContent := "Summary " +:+ dq +:+ Summary.title older +:+ dq
                                 +:+ " discusses " +:+ from sw;
               newerContent := "Summary " +:+ dq +:+ Summary.title newer +:+ dq
                                 +:+ " suggests: " +:+ pattern sw;
               olderContentType := summaryLevel;
               newerContentType := summaryLevel;
               signals := ["summary_level_tech_switch: " +:+ dq +:+ pattern sw
                             +:+ dq +:+ " contradicts older knowledge about "
                             +:+ from sw];
               score := 0.3 |}]
         else [])
      newerSwitches in
  let newerKeywords := extractKeywords newer in
  let keywordOverlap := jaccardSimilarity olderKeywords newerKeywords in
  let fromAdjectives :=
    if Num.ltb 0.15 keywordOverlap then
      let adjConflicts := findContradictoryAdjectives olderText newerText in
      if 2 <=? length adjConflicts then
        [{| olderContent := "Summary " +:+ dq +:+ Summary.title older +:+ dq;
            newerContent := "Summary " +:+ dq +:+ Summary.title newer +:+ dq;
            olderContentType := summaryLevel;
            newerContentType := summaryLevel;
            signals :=
              map (fun c => "summary_adjective_conflict: " +:+ dq +:+ adjA c
                              +:+ dq +:+ " vs " +:+ dq +:+ adjB c +:+ dq)
                  adjConflicts;
            score := Num.min (0.2 + Num.ofNat (length adjConflicts) * 0.1) 0.7 |}]
      else []
    else [] in
  fromSwitches ++ fromAdjectives.

End Matcher.

(* ------------------------------------------------------------------ *)
(** ** Heuristic candidate discovery *)

Module Candidate.
Record t := {
  olderSummaryId : string;
  newerSummaryId : string;
  olderTopicId : option string;
  newerTopicId : option string;
  olderContent : string;
  newerContent : string;
  signals : list string;
  heuristicScore : Q
}.

(** The deduplication key
    [`${olderSummaryId}|${newerSummaryId}|${olderContent}|${newerContent}`]. *)
Definition key (olderId newerId olderText newerText : string) : string :=
  olderId +:+ "|" +:+ newerId +:+ "|" +:+ olderText +:+ "|" +:+ newerText.

Definition keyOf (c : t) : string :=
  key (olderSummaryId c) (newerSummaryId c) (olderContent c) (newerContent c).
End Candidate.

Module Discovery.
Import Patterns Matcher.

(** [Array.prototype.sort] with a comparator, as a stable insertion sort;
    [notAfter y x] says that the comparator does not put [y] after [x].
    For a comparator that is a consistent order every stable sort gives
    this result. *)
Fixpoint insertSorted {A : Type} (notAfter : A -> A -> bool) (x : A)
         (l : list A) : list A :=
  match l with
  | [] => [x]
  | y :: r => if notAfter y x then y :: insertSorted notAfter x r else x :: l
  end.

Definition stableSort {A : Type} (notAfter : A -> A -> bool) (l : list A)
  : list A :=
  fold_left (fun acc x => insertSorted notAfter x acc) l [].

(** [a <= b] on times; false when either is [NaN]. *)
Definition timeLe (a b : option Z) : bool :=
  match a, b with
  | Some x, Some y => (x <=? y)%Z
  | _, _ => false
  end.

(** The comparator [time(a) - time(b)] is not positive; a [NaN]
    difference counts as zero. *)
Definition chronological (a b : Summary.t) : bool :=
  match Summary.createdAt a, Summary.createdAt b with
  | Some x, Some y => (x <=? y)%Z
  | _, _ => true
  end.

(** The comparator [b.heuristicScore - a.heuristicScore] is not positive. *)
Definition byScoreDesc (a b : Candidate.t) : bool :=
  Qle_bool (Candidate.heuristicScore b) (Candidate.heuristicScore a).

(** Truthiness of a [topicId]. *)
Definition assigned (topicId : option string) : option string :=
  match topicId with
  | Some k => if String.eqb k "" then None else Some k
  | None => None
  end.

(** [byTopic]: topic id to the summaries of the topic, in insertion order. *)
Definition Groups : Type := list (string * list Summary.t).

Fixpoint groupPush (m : Groups) (k : string) (s : Summary.t) : Groups :=
  match m with
  | [] => [(k, [s])]
  | (k', g) :: rest =>
      if String.eqb k' k then (k', g ++ [s]) :: rest
      else (k', g) :: groupPush rest k s
  end.

Definition groupByTopic (summaries : list Summary.t) : Groups :=
  fold_left
    (fun m s =>
       match assigned (Summary.topicId s) with
       | Some k => groupPush m k s
       | None => m
       end)
    summaries [].

(** The summaries without a topic; collected and never read again. *)
Definition unassigned (summaries : list Summary.t) : list Summary.t :=
  List.filter
    (fun s => match assigned (Summary.topicId s) with
              | Some _ => false | None => true end)
    summaries.

Definition sortGroups (m : Groups) : Groups :=
  map (fun '(k, g) => (k, stableSort chronological g)) m.

(** [topicMap.get(id)]; a later topic with the same id replaces an
    earlier one. *)
Definition topicGet (topics : list Topic.t) (k : string) : option Topic.t :=
  List.find (fun t => String.eqb (Topic.id t) k) (rev topics).

(** The candidates of one ordered pair of summaries, as both passes and
    the single-summary check build them. *)
Definition candidatesOf (threshold : Q) (older newer : Summary.t)
  : list Candidate.t :=
  let combined := compareDecisions older newer
                  ++ compareSummaryLevel older newer in
  map (fun c =>
         {| Candidate.olderSummaryId := Summary.id older;
            Candidate.newerSummaryId := Summary.id newer;
            Candidate.olderTopicId := Summary.topicId older;
            Candidate.newerTopicId := Summary.topicId newer;
            Candidate.olderContent := Matcher.olderContent c;
            Candidate.newerContent := Matcher.newerContent c;
            Candidate.signals := Matcher.signals c;
            Candidate.heuristicScore := Matcher.score c |})
      (List.filter (fun c => Qle_bool threshold (Matcher.score c)) combined).

(** The pairs [(l[i], l[j])] with [i < j], in loop order. *)
Fixpoint orderedPairs {A : Type} (l : list A) : list (A * A) :=
  match l with
  | [] => []
  | x :: r => map (fun y => (x, y)) r ++ orderedPairs r
  end.

Definition intraTopic (m : Groups) : list Candidate.t :=
  flat_map
    (fun '(_, group) =>
       flat_map (fun '(older, newer) =>
                   candidatesOf HEURISTIC_SCORE_THRESHOLD older newer)
                (orderedPairs group))
    m.

Definition crossTopic (topics : list Topic.t) (m : Groups)
  : list Candidate.t :=
  flat_map
    (fun '((idA, groupA), (idB, groupB)) =>
       match topicGet topics idA, topicGet topics idB with
       | Some topicA, Some topicB =>
           let overlap := tagOverlap (Topic.tags topicA) (Topic.tags topicB) in
           if Qle_bool overlap 0.5 then [] else
           flat_map
             (fun sA =>
                flat_map
                  (fun sB =>
                     let aTime := Summary.createdAt sA in
                     let bTime := Summary.createdAt sB in
                     let older := if timeLe aTime bTime then sA else sB in
                     let newer := if timeLe aTime bTime then sB else sA in
                     candidatesOf HEURISTIC_SCORE_THRESHOLD older newer)
                  groupB)
             groupA
       | _, _ => []
       end)
    (orderedPairs m).

(** Deduplicate by key, keeping the first candidate of each key. *)
Fixpoint dedup (seen : JsSet.t) (cs : list Candidate.t) : list Candidate.t :=
  match cs with
  | [] => []
  | c :: rest =>
      if JsSet.has seen (Candidate.keyOf c) then dedup seen rest
      else c :: dedup (JsSet.add seen (Candidate.keyOf c)) rest
  end.

(** [findCandidateConflicts] after the two collections were read. *)
Definition scanCorpus (summaries : list Summary.t) (topics : list Topic.t)
  : list Candidate.t :=
  if length summaries <? 2 then [] else
  let byTopic := sortGroups (groupByTopic summaries) in
  let allCandidates := intraTopic byTopic ++ crossTopic topics byTopic in
  stableSort byScoreDesc (dedup [] allCandidates).

End Discovery.

(* ------------------------------------------------------------------ *)
(** ** JS values of the judge's reply *)

Module Js.

Set Warnings "-register-all".

(** What [JSON.parse] can return, and [undefined] for an absent
    property. *)
Inductive Val : Type :=
| Undefined
| Null
| Bool (b : bool)
| Number (q : Q)
| Str (s : string)
| Arr (items : list Val)
| Obj (fields : list (string * Val)).

(** Truthiness, as [!v] and [v || d] test it. *)
Definition truthy (v : Val) : bool :=
  match v with
  | Undefined | Null => false
  | Bool b => b
  | Number q => negb (Qeq_bool q 0)
  | Str s => negb (String.eqb s "")
  | Arr _ | Obj _ => true
  end.

(** [v || d] *)
Definition orElse (v d : Val) : Val := if truthy v then v else d.

Fixpoint lookup (fields : list (string * Val)) (name : string) : Val :=
  match fields with
  | [] => Undefined
  | (k, v) :: rest => if String.eqb k name then v else lookup rest name
  end.

(** [v.name] for a name that no string, array, number or boolean has as
    a property of its own; [None] is the [TypeError] of reading a
    property of [null] or [undefined]. *)
Definition get (v : Val) (name : string) : option Val :=
  match v with
  | Undefined | Null => None
  | Obj fields => Some (lookup fields name)
  | Bool _ | Number _ | Str _ | Arr _ => Some Undefined
  end.

(** [ToNumber]; [None] is [NaN]. The conversion of strings, arrays and
    objects is the language's and is taken from [coerce]. *)
Definition toNumber (coerce : Val -> option Q) (v : Val) : option Q :=
  match v with
  | Undefined => None
  | Null => Some 0%Q
  | Bool b => Some (if b then 1%Q else 0%Q)
  | Number q => Some q
  | Str _ | Arr _ | Obj _ => coerce v
  end.

(** [v < y] for a number [y]; false when [v] converts to [NaN]. *)
Definition lessThan (coerce : Val -> option Q) (v : Val) (y : Q) : bool :=
  match toNumber coerce v with
  | Some x => Num.ltb x y
  | None => false
  end.

End Js.

(* ------------------------------------------------------------------ *)
(** ** Conflict records *)

Module Conflict.

Inductive Status := open | resolved | dismissed.

Record Metadata := {
  modelUsed : option string;
  providerUsed : option string;
  confidenceScore : Js.Val;
  heuristicScore : Q;
  tokensUsed : nat;
  signals : list string
}.

Record t := {
  id : string;
  type : Js.Val;
  severity : Js.Val;
  status : Status;
  olderSummaryId : string;
  newerSummaryId : string;
  olderTopicId : option string;
  newerTopicId : option string;
  olderContent : string;
  newerContent : string;
  analysis : Js.Val;
  recommendation : Js.Val;
  resolvedAt : option string;      (* [None]: null *)
  resolution : option string;      (* [None]: null *)
  resolutionNote : option string;  (* [None]: null *)
  detectedAt : string;
  metadata : Metadata
}.

Definition keyOf (c : t) : string :=
  Candidate.key (olderSummaryId c) (newerSummaryId c)
                (olderContent c) (newerContent c).

(** The object that [updateConflict] merges into a record; [None] is a
    key that the object does not have. *)
Record Updates := {
  setStatus : option Status;
  setResolution : option string;
  setResolutionNote : option string;
  setResolvedAt : option string
}.

(** [{ ...c, ...updates }] *)
Definition merge (c : t) (u : Updates) : t :=
  {| id := id c;
     type := type c;
     severity := severity c;
     status := match setStatus u with Some s => s | None => status c end;
     olderSummaryId := olderSummaryId c;
     newerSummaryId := newerSummaryId c;
     olderTopicId := olderTopicId c;
     newerTopicId := newerTopicId c;
     olderContent := olderContent c;
     newerContent := newerContent c;
     analysis := analysis c;
     recommendation := recommendation c;
     resolvedAt := match setResolvedAt u with
                   | Some d => Some d | None => resolvedAt c end;
     resolution := match setResolution u with
                   | Some r => Some r | None => resolution c end;
     resolutionNote := match setResolutionNote u with
                       | Some n => Some n | None => resolutionNote c end;
     detectedAt := detectedAt c;
     metadata := metadata c |}.

End Conflict.

(* ------------------------------------------------------------------ *)
(** ** The host: stores, judgment service, identifiers and clock *)

Module Host.

(** The reply of [complete]; [content] is [JSON.parse(result.content)],
    [None] when the text is not JSON. *)
Record Completion := {
  content : option Js.Val;
  model : string;
  providerType : string;
  totalTokens : nat
}.

(** The collaborators of the engine during one call. The prompt sent to
    the judge is a function of the candidate, so [complete] takes the
    candidate. *)
Record t := {
  dbGetAll : option (list Summary.t * list Topic.t);  (* [None]: read fails *)
  hasEnabledProvider : bool;
  complete : Candidate.t -> option Completion;        (* [None]: call fails *)
  coerceNumber : Js.Val -> option Q;
  randomUUID : nat -> string;
  isoTime : nat -> string
}.

End Host.

(** The state that calls change: the list stored under the key
    [conflicts] and the number of identifiers and timestamps drawn. *)
Record World := { stored : list Conflict.t; tick : nat }.

(** Computations over the world. *)
Definition M (A : Type) : Type := World -> A * World.

Definition ret {A : Type} (a : A) : M A := fun w => (a, w).

Definition bind {A B : Type} (m : M A) (k : A -> M B) : M B :=
  fun w => let (a, w') := m w in k a w'.

Notation "'do' x <- c1 ; c2" := (bind c1 (fun x => c2))
  (at level 10, x name, c1 at level 100, c2 at level 200).

Fixpoint mapM {A B : Type} (f : A -> M B) (l : list A) : M (list B) :=
  match l with
  | [] => ret []
  | x :: rest => do y <- f x; do ys <- mapM f rest; ret (y :: ys)
  end.

Fixpoint forEachM {A : Type} (f : A -> M unit) (l : list A) : M unit :=
  match l with
  | [] => ret tt
  | x :: rest => do _ <- f x; forEachM f rest
  end.

(* ------------------------------------------------------------------ *)
(** ** Conflict storage *)

Module Ledger.

(** [generateId()] *)
Definition generateId (h : Host.t) : M string :=
  fun w => (Host.randomUUID h (tick w),
            {| stored := stored w; tick := S (tick w) |}).

(** [new Date().toISOString()] *)
Definition nowISO (h : Host.t) : M string :=
  fun w => (Host.isoTime h (tick w),
            {| stored := stored w; tick := S (tick w) |}).

(** Retrieve all conflicts. *)
Definition getAllConflicts : M (list Conflict.t) :=
  fun w => (stored w, w).

(** Persist a conflict record: read the list, push, write it back. *)
Definition saveConflict (conflict : Conflict.t) : M unit :=
  fun w => (tt, {| stored := stored w ++ [conflict]; tick := tick w |}).

(** [conflicts.findIndex(p)]; [None] is -1. *)
Fixpoint findIndex {A : Type} (p : A -> bool) (l : list A) : option nat :=
  match l with
  | [] => None
  | x :: rest =>
      if p x then Some 0
      else match findIndex p rest with
           | Some i => Some (S i)
           | None => None
           end
  end.

(** Update an existing conflict by id; [None] when there is none. *)
Definition updateConflict (conflictId : string) (updates : Conflict.Updates)
  : M (option Conflict.t) :=
  fun w =>
    let conflicts := stored w in
    match findIndex (fun c => String.eqb (Conflict.id c) conflictId) conflicts with
    | None => (None, w)
    | Some index =>
        match conflicts !! index with
        | Some c =>
            let c' := Conflict.merge c updates in
            (Some c', {| stored := <[index := c']> conflicts; tick := tick w |})
        | None => (None, w)
        end
    end.

Definition validResolutions : list string :=
  ["keep_newer"; "keep_older"; "keep_both"; "custom"].

(** Resolve a conflict by choosing a resolution strategy. *)
Definition resolveConflict (h : Host.t) (conflictId resolution note : string)
  : M (option Conflict.t) :=
  if String.eqb conflictId "" || String.eqb resolution "" then ret None else
  if negb (existsb (String.eqb resolution) validResolutions) then ret None else
  do now <- nowISO h;
  updateConflict conflictId
    {| Conflict.setStatus := Some Conflict.resolved;
       Conflict.setResolution := Some resolution;
       Conflict.setResolutionNote := Some note;
       Conflict.setResolvedAt := Some now |}.

(** Dismiss a conflict, marking it as not a real conflict. *)
Definition dismissConflict (h : Host.t) (conflictId : string)
  : M (option Conflict.t) :=
  if String.eqb conflictId "" then ret None else
  do now <- nowISO h;
  updateConflict conflictId
    {| Conflict.setStatus := Some Conflict.dismissed;
       Conflict.setResolution := None;
       Conflict.setResolutionNote := None;
       Conflict.setResolvedAt := Some now |}.

End Ledger.

(* ------------------------------------------------------------------ *)
(** ** AI-powered verification *)

Module Verify.
Import Patterns.

(** Whether the parsed reply passes the test
    [!parsed.isConflict || parsed.confidenceScore < AI_CONFIDENCE_THRESHOLD];
    [None] when reading the properties throws. *)
Definition rejected (h : Host.t) (parsed : Js.Val) : option bool :=
  match Js.get parsed "isConflict", Js.get parsed "confidenceScore" with
  | Some isConflict, Some confidence =>
      Some (negb (Js.truthy isConflict)
            || Js.lessThan (Host.coerceNumber h) confidence
                           AI_CONFIDENCE_THRESHOLD)
  | _, _ => None
  end.

Definition field (parsed : Js.Val) (name : string) : Js.Val :=
  match Js.get parsed name with
  | Some v => v
  | None => Js.Undefined
  end.

(** Verify a single candidate with the judge; every failure inside the
    [try] block gives [null]. *)
Definition verifySingleCandidate (h : Host.t) (candidate : Candidate.t)
  : M (option Conflict.t) :=
  match Host.complete h candidate with
  | None => ret None
  | Some result =>
      match Host.content result with
      | None => ret None
      | Some parsed =>
          match rejected h parsed with
          | None => ret None
          | Some true => ret None
          | Some false =>
              do newId <- Ledger.generateId h;
              do now <- Ledger.nowISO h;
              ret (Some
                {| Conflict.id := newId;
                   Conflict.type :=
                     Js.orElse (field parsed "type") (Js.Str "approach_conflict");
                   Conflict.severity :=
                     Js.orElse (field parsed "severity") (Js.Str "medium");
                   Conflict.status := Conflict.open;
                   Conflict.olderSummaryId := Candidate.olderSummaryId candidate;
                   Conflict.newerSummaryId := Candidate.newerSummaryId candidate;
                   Conflict.olderTopicId := Candidate.olderTopicId candidate;
                   Conflict.newerTopicId := Candidate.newerTopicId candidate;
                   Conflict.olderContent := Candidate.olderContent candidate;
                   Conflict.newerContent := Candidate.newerContent candidate;
                   Conflict.analysis :=
                     Js.orElse (field parsed "analysis") (Js.Str "");
                   Conflict.recommendation :=
                     Js.orElse (field parsed "recommendation") (Js.Str "");
                   Conflict.resolvedAt := None;
                   Conflict.resolution := None;
                   Conflict.resolutionNote := None;
                   Conflict.detectedAt := now;
                   Conflict.metadata :=
                     {| Conflict.modelUsed := Some (Host.model result);
                        Conflict.providerUsed := Some (Host.providerType result);
                        Conflict.confidenceScore := field parsed "confidenceScore";
                        Conflict.heuristicScore := Candidate.heuristicScore candidate;
                        Conflict.tokensUsed := Host.totalTokens result;
                        Conflict.signals := Candidate.signals candidate |} |})
          end
      end
  end.

(** [l.slice(i, j)] for [0 <= i <= j]. *)
Definition slice {A : Type} (i j : nat) (l : list A) : list A :=
  firstn (j - i) (skipn i l).

(** The values of [i] in [for (i = 0; i < len; i += step)]. *)
Definition strides (len step : nat) : list nat :=
  map (fun k => k * step) (seq 0 (Nat.div (len + step - 1) step)).

(** One batch: all requests are issued, every outcome is awaited, and
    the non-null results are kept in order. *)
Definition verifyBatch (h : Host.t) (batch : list Candidate.t)
  : M (list Conflict.t) :=
  do results <- mapM (verifySingleCandidate h) batch;
  ret (omap (fun r => r) results).

Fixpoint verifyBatches (h : Host.t) (toVerify : list Candidate.t)
         (starts : list nat) (verified : list Conflict.t)
  : M (list Conflict.t) :=
  match starts with
  | [] => ret verified
  | i :: rest =>
      do found <- verifyBatch h
                    (slice i (i + MAX_CONCURRENT_AI_REQUESTS) toVerify);
      verifyBatches h toVerify rest (verified ++ found)
  end.

(** [options.maxCandidates || 20] *)
Definition capOf (maxCandidates : option nat) : nat :=
  match maxCandidates with
  | Some (S n) => S n
  | _ => 20
  end.

(** Use the judge to verify heuristic candidates, in batches. *)
Definition verifyConflicts (h : Host.t) (candidates : list Candidate.t)
           (maxCandidates : option nat) : M (list Conflict.t) :=
  if length candidates =? 0 then ret [] else
  if negb (Host.hasEnabledProvider h) then ret [] else
  let toVerify := firstn (capOf maxCandidates) candidates in
  verifyBatches h toVerify
                (strides (length toVerify) MAX_CONCURRENT_AI_REQUESTS) [].

End Verify.

(* ------------------------------------------------------------------ *)
(** ** Single summary check and full scan *)

Module Engine.
Import Patterns Matcher Discovery.

(** The conflict stored for a candidate when no judge is used. *)
Definition heuristicConflict (h : Host.t) (candidate : Candidate.t)
  : M Conflict.t :=
  do newId <- Ledger.generateId h;
  do now <- Ledger.nowISO h;
  ret {| Conflict.id := newId;
         Conflict.type := Js.Str "approach_conflict";
         Conflict.severity :=
           if Qle_bool 0.7 (Candidate.heuristicScore candidate)
           then Js.Str "high" else Js.Str "medium";
         Conflict.status := Conflict.open;
         Conflict.olderSummaryId := Candidate.olderSummaryId candidate;
         Conflict.newerSummaryId := Candidate.newerSummaryId candidate;
         Conflict.olderTopicId := Candidate.olderTopicId candidate;
         Conflict.newerTopicId := Candidate.newerTopicId candidate;
         Conflict.olderContent := Candidate.olderContent candidate;
         Conflict.newerContent := Candidate.newerContent candidate;
         Conflict.analysis :=
           Js.Str ("Heuristic analysis detected potential conflict based on: "
                     +:+ Text.join "; " (Candidate.signals candidate));
         Conflict.recommendation :=
           Js.Str "Review both items and decide which reflects your current thinking.";
         Conflict.resolvedAt := None;
         Conflict.resolution := None;
         Conflict.resolutionNote := None;
         Conflict.detectedAt := now;
         Conflict.metadata :=
           {| Conflict.modelUsed := None;
              Conflict.providerUsed := None;
              Conflict.confidenceScore :=
                Js.Number (Candidate.heuristicScore candidate);
              Conflict.heuristicScore := Candidate.heuristicScore candidate;
              Conflict.tokensUsed := 0;
              Conflict.signals := Candidate.signals candidate |} |}.

(** The heuristic-only path: a conflict for every candidate whose score
    reaches 0.5. *)
Definition heuristicOnly (h : Host.t) (candidates : list Candidate.t)
  : M (list Conflict.t) :=
  mapM (heuristicConflict h)
       (List.filter (fun c => Qle_bool 0.5 (Candidate.heuristicScore c))
                    candidates).

Definition sameAssignedTopic (a b : option string) : bool :=
  match assigned a, b with
  | Some k, Some k' => String.eqb k' k
  | _, _ => false
  end.

(** The existing summaries that the new one is compared with. *)
Definition comparablesOf (summary : Summary.t) (existing : list Summary.t)
  : list Summary.t :=
  List.filter
    (fun e =>
       if String.eqb (Summary.id e) (Summary.id summary) then false
       else if sameAssignedTopic (Summary.topicId summary) (Summary.topicId e)
       then true
       else negb (Qle_bool (tagOverlap (Summary.tags summary) (Summary.tags e))
                           0.5))
    existing.

(** The candidates of the new summary against its comparables, before
    deduplication. *)
Definition newSummaryCandidates (summary : Summary.t)
           (comparables : list Summary.t) : list Candidate.t :=
  let newSummaryTime := Summary.createdAt summary in
  flat_map
    (fun existing =>
       let existingTime := Summary.createdAt existing in
       let older := if timeLe existingTime newSummaryTime
                    then existing else summary in
       let newer := if timeLe existingTime newSummaryTime
                    then summary else existing in
       candidatesOf HEURISTIC_SCORE_THRESHOLD older newer)
    comparables.

(** Check a newly created summary against existing knowledge. *)
Definition checkNewSummary (h : Host.t) (summary : Summary.t) (useAI : bool)
  : M (list Conflict.t) :=
  if String.eqb (Summary.id summary) "" then ret [] else
  match Host.dbGetAll h with
  | None => ret []
  | Some (existingSummaries, _) =>
      if length existingSummaries =? 0 then ret [] else
      let comparables := comparablesOf summary existingSummaries in
      if length comparables =? 0 then ret [] else
      let candidates := newSummaryCandidates summary comparables in
      if length candidates =? 0 then ret [] else
      let deduplicated := dedup [] candidates in
      let hasProvider := if useAI then Host.hasEnabledProvider h else false in
      do conflicts <-
         (if useAI && hasProvider
          then Verify.verifyConflicts h deduplicated (Some 10)
          else heuristicOnly h deduplicated);
      do _ <- forEachM Ledger.saveConflict conflicts;
      ret conflicts
  end.

(** Scan all summaries for potential conflicts; a failed read gives no
    candidates. *)
Definition findCandidateConflicts (h : Host.t) : list Candidate.t :=
  match Host.dbGetAll h with
  | None => []
  | Some (summaries, topics) => scanCorpus summaries topics
  end.

Record ScanOptions := {
  maxCandidates : option nat;
  heuristicThreshold : option Q
}.

Record ScanResult := {
  found : nat;
  verified : nat;
  conflicts : list Conflict.t
}.

Definition thresholdOf (o : ScanOptions) : Q :=
  match heuristicThreshold o with
  | Some q => q
  | None => HEURISTIC_SCORE_THRESHOLD
  end.

(** Step 1 of the full scan. *)
Definition filteredCandidates (h : Host.t) (o : ScanOptions)
  : list Candidate.t :=
  List.filter (fun c => Qle_bool (thresholdOf o) (Candidate.heuristicScore c))
              (findCandidateConflicts h).

(** Step 2 of the full scan: the candidates whose key no stored
    conflict has. *)
Definition newCandidates (h : Host.t) (o : ScanOptions)
           (existingConflicts : list Conflict.t) : list Candidate.t :=
  let existingKeys := JsSet.ofList (map Conflict.keyOf existingConflicts) in
  List.filter (fun c => negb (JsSet.has existingKeys (Candidate.keyOf c)))
              (filteredCandidates h o).

(** Run a conflict scan across the entire knowledge base. *)
Definition runFullScan (h : Host.t) (o : ScanOptions) : M ScanResult :=
  let filtered := filteredCandidates h o in
  if length filtered =? 0
  then ret {| found := 0; verified := 0; conflicts := [] |} else
  do existingConflicts <- Ledger.getAllConflicts;
  let fresh := newCandidates h o existingConflicts in
  if length fresh =? 0
  then ret {| found := length filtered; verified := 0; conflicts := [] |} else
  do verifiedConflicts <-
     (if Host.hasEnabledProvider h
      then Verify.verifyConflicts h fresh
             (Some (match maxCandidates o with Some n => n | None => 20 end))
      else heuristicOnly h fresh);
  do _ <- forEachM Ledger.saveConflict verifiedConflicts;
  ret {| found := length filtered;
         verified := length verifiedConflicts;
         conflicts := verifiedConflicts |}.

(** The calls by which a client changes the ledger. *)
Inductive Call :=
| CheckNewSummary (summary : Summary.t) (useAI : bool)
| RunFullScan (o : ScanOptions)
| ResolveConflict (conflictId resolution note : string)
| DismissConflict (conflictId : string).

Definition perform (h : Host.t) (c : Call) (w : World) : World :=
  match c with
  | CheckNewSummary s useAI => snd (checkNewSummary h s useAI w)
  | RunFullScan o => snd (runFullScan h o w)
  | ResolveConflict i r n => snd (Ledger.resolveConflict h i r n w)
  | DismissConflict i => snd (Ledger.dismissConflict h i w)
  end.

(** The worlds that a series of calls leads to; the host may differ from
    call to call. *)
Inductive reachable (w0 : World) : World -> Prop :=
| reach_start : reachable w0 w0
| reach_call w h c : reachable w0 w -> reachable w0 (perform h c w).

End Engine.

(* ------------------------------------------------------------------ *)
(** ** Vocabulary of the properties *)

Module Props.
Import Matcher.

(** The tokens of a fragment, as [compareDecisions] builds them. *)
Definition tokensOf (text : string) : JsSet.t := JsSet.ofList (tokenize text).









(** The signals and uncapped score of a pair of fragments. *)
Definition signalsOf (olderText newerText : string) : Acc :=
  pairSignals (tokensOf olderText) (tokensOf newerText) olderText newerText
              (jaccardSimilarity (tokensOf olderText) (tokensOf newerText)).

(** [s] is a member of one of the groups. *)
Definition grouped (m : Discovery.Groups) (s : Summary.t) : Prop :=
  exists k g, In (k, g) m /\ In s g.

(** The judge's reply to the candidate passes the test of
    [verifySingleCandidate]: the call succeeds, the content is JSON, its
    properties can be read, and the test
    [!parsed.isConflict || parsed.confidenceScore < 0.6] is false. *)
Definition accepts (h : Host.t) (c : Candidate.t) : bool :=
  match Host.complete h c with
  | Some result =>
      match Host.content result with
      | Some parsed =>
          match Verify.rejected h parsed with
          | Some false => true
          | _ => false
          end
      | None => false
      end
  | None => false
  end.

(** A record as the creation paths build it. *)
Definition fresh (c : Conflict.t) : Prop :=
  Conflict.status c = Conflict.open
  /\ Conflict.resolvedAt c = None /\ Conflict.resolution c = None.

(** The invariant of conflict records. *)
Definition openImpliesUnresolved (c : Conflict.t) : Prop :=
  Conflict.status c = Conflict.open ->
  Conflict.resolvedAt c = None /\ Conflict.resolution c = None.

Definition ledgerInvariant (w : World) : Prop :=
  Forall openImpliesUnresolved (stored w).

End Props.

(* ------------------------------------------------------------------ *)
(** ** Sample records *)

Module Samples.

Definition record (i : string) (topic : option string)
           (decisions : list string) (time : option Z) : Summary.t :=
  {| Summary.id := i;
     Summary.topicId := topic;
     Summary.title := "";
     Summary.summary := "";
     Summary.decisions := decisions;
     Summary.keyInsights := [];
     Summary.tags := [];
     Summary.createdAt := time |}.

Definition apiPraise : string := "The API is fast, reliable and simple".
Definition apiRegret : string :=
  "Actually the API turned out slow, unreliable and complex, don't trust it".
Definition cacheLayer : string := "redis cache layer".
Definition cacheCluster : string := "redis cache cluster".
Definition queueCluster : string := "kafka queue cluster".

Definition apiOlder : Summary.t :=
  record "s1" (Some "backend") [apiPraise; cacheLayer] (Some 1000%Z).
Definition apiNewer : Summary.t :=
  record "s2" (Some "backend") [apiRegret; cacheCluster] (Some 2000%Z).

Definition storesOlder : string := "we rely on mysql and redis".
Definition storesNewer : string :=
  "switched from mysql to postgres and switched from redis to kafka".

Definition fragment (s : string) : Matcher.Item :=
  {| Matcher.text := s; Matcher.type := Matcher.decision |}.

End Samples.

Module SampleHosts.
Import Samples.

(** Identifiers and timestamps numbered by the order in which they are
    drawn. *)
Definition numbered (label : string) (n : nat) : string :=
  label +:+ NilZero.string_of_uint (Nat.to_uint n).

(** A reply that confirms a conflict with confidence 0.9. *)
Definition confirming : Host.Completion :=
  {| Host.content :=
       Some (Js.Obj [("isConflict", Js.Bool true);
                     ("type", Js.Str "decision_conflict");
                     ("severity", Js.Str "high");
                     ("analysis", Js.Str "The two items cannot both hold.");
                     ("recommendation", Js.Str "Keep the newer item.");
                     ("confidenceScore", Js.Number 0.9)]);
     Host.model := "judge-model";
     Host.providerType := "openai";
     Host.totalTokens := 120 |}.

(** A reply that says [isConflict: true] and leaves [confidenceScore]
    out. *)
Definition scoreless : Host.Completion :=
  {| Host.content :=
       Some (Js.Obj [("isConflict", Js.Bool true);
                     ("type", Js.Str "decision_conflict");
                     ("severity", Js.Str "high");
                     ("analysis", Js.Str "The two items cannot both hold.");
                     ("recommendation", Js.Str "Keep the newer item.")]);
     Host.model := "judge-model";
     Host.providerType := "openai";
     Host.totalTokens := 120 |}.

Definition host (summaries : list Summary.t) (provider : bool)
           (judge : Candidate.t -> option Host.Completion) : Host.t :=
  {| Host.dbGetAll := Some (summaries, []);
     Host.hasEnabledProvider := provider;
     Host.complete := judge;
     Host.coerceNumber := fun _ => None;
     Host.randomUUID := numbered "conflict-";
     Host.isoTime := numbered "time-" |}.

(** A store of two summaries of one topic and a judge that confirms
    every candidate. *)
Definition apiHost : Host.t :=
  host [apiOlder; apiNewer] true (fun _ => Some confirming).

Definition emptyWorld : World := {| stored := []; tick := 0 |}.

Definition defaults : Engine.ScanOptions :=
  {| Engine.maxCandidates := None; Engine.heuristicThreshold := None |}.

Definition oneAtATime : Engine.ScanOptions :=
  {| Engine.maxCandidates := Some 1; Engine.heuristicThreshold := None |}.

(** A newer summary with twenty-one decisions, each of which
    contradicts the older summary's praise of the API. *)
Definition manyRegrets : Summary.t :=
  record "s2" (Some "backend")
         (map (fun n => apiRegret +:+ numbered ", take " n) (seq 1 21))
         (Some 2000%Z).

Definition busyHost : Host.t :=
  host [apiOlder; manyRegrets] true (fun _ => Some confirming).

(** A new summary dated before the existing summary of its topic. *)
Definition existingSwitch : Summary.t :=
  record "existing" (Some "storage") ["switched from mysql to postgres"]
         (Some 2000%Z).
Definition lateArrival : Summary.t :=
  record "new" (Some "storage") [storesOlder] (Some 1000%Z).

(** The same existing summary with a timestamp that does not parse. *)
Definition undatedSwitch : Summary.t :=
  record "existing" (Some "storage") ["switched from mysql to postgres"] None.
Definition datedArrival : Summary.t :=
  record "new" (Some "storage") [storesOlder] (Some 3000%Z).

End SampleHosts.

(* ------------------------------------------------------------------ *)
(** ** General helpers of lib/utils.js *)

Module Utils.
Import Text.

(** [Math.ceil(text.length / 4)] *)
Definition estimateTokens (text : string) : nat :=
  Nat.div (String.length text + 3) 4.

(** [s.replace(/c/g, rep)] for a single character [c]. *)
Fixpoint replaceAll (c : ascii) (rep : string) (s : string) : string :=
  match s with
  | EmptyString => EmptyString
  | String a r =>
      if Ascii.eqb a c then rep +:+ replaceAll c rep r
      else String a (replaceAll c rep r)
  end.

(** Escape the five characters that are special in HTML; the ampersand
    goes first. *)
Definition escapeHtml (str : string) : string :=
  if String.eqb str "" then "" else
  replaceAll "'"%char "&#39;"
    (replaceAll (ascii_of_nat 34) "&quot;"
       (replaceAll ">"%char "&gt;"
          (replaceAll "<"%char "&lt;"
             (replaceAll "&"%char "&amp;" str)))).

(** The characters that [/[^a-zA-Z0-9_\- ]/g] leaves in place. *)
Definition isFilenameChar (c : ascii) : bool :=
  isLower c || isUpper c || isDigit c
  || (code c =? 95) || (code c =? 45) || (code c =? 32).

Fixpoint keepOnly (p : ascii -> bool) (s : string) : string :=
  match s with
  | EmptyString => EmptyString
  | String a r => if p a then String a (keepOnly p r) else keepOnly p r
  end.

Fixpoint trimStart (s : string) : string :=
  match s with
  | EmptyString => EmptyString
  | String a r => if isSpace a then trimStart r else s
  end.

(** The string without its trailing white space. *)
Fixpoint trimEnd (s : string) : string :=
  match s with
  | EmptyString => EmptyString
  | String a r =>
      match trimEnd r with
      | EmptyString => if isSpace a then EmptyString else String a EmptyString
      | r' => String a r'
      end
  end.

(** [s.trim()] *)
Definition trim (s : string) : string := trimEnd (trimStart s).

(** [s.replace(/\s+/g, '_')]: every maximal run of white space becomes
    one underscore. *)
Fixpoint underscoreRuns (s : string) (inRun : bool) : string :=
  match s with
  | EmptyString => EmptyString
  | String a r =>
      if isSpace a
      then (if inRun then underscoreRuns r true
            else String "_" (underscoreRuns r true))
      else String a (underscoreRuns r false)
  end.

(** A file name without unsafe characters, at most 80 characters long. *)
Definition sanitizeFilename (name : string) : string :=
  String.substring 0 80
    (underscoreRuns (trim (keepOnly isFilenameChar name)) false).

End Utils.

(* ------------------------------------------------------------------ *)
(** ** Queries over the ledger *)

Module Queries.

(** The comparator [time(b.detectedAt) - time(a.detectedAt)] is not
    positive; a [NaN] difference counts as zero. [dateOf] is
    [new Date(s).getTime()]. *)
Definition newestFirst (dateOf : string -> option Z) (a b : Conflict.t)
  : bool :=
  match dateOf (Conflict.detectedAt b), dateOf (Conflict.detectedAt a) with
  | Some x, Some y => (x <=? y)%Z
  | _, _ => true
  end.

Definition isTopic (topicId : string) (t : option string) : bool :=
  match t with
  | Some k => String.eqb k topicId
  | None => false
  end.

(** All conflicts of a topic, newest first. *)
Definition getConflictsForTopic (dateOf : string -> option Z)
           (topicId : string) : M (list Conflict.t) :=
  if String.eqb topicId "" then ret [] else
  do all <- Ledger.getAllConflicts;
  ret (Discovery.stableSort (newestFirst dateOf)
         (List.filter
            (fun c => isTopic topicId (Conflict.olderTopicId c)
                      || isTopic topicId (Conflict.newerTopicId c))
            all)).

(** All conflicts of a summary, newest first. *)
Definition getConflictsForSummary (dateOf : string -> option Z)
           (summaryId : string) : M (list Conflict.t) :=
  if String.eqb summaryId "" then ret [] else
  do all <- Ledger.getAllConflicts;
  ret (Discovery.stableSort (newestFirst dateOf)
         (List.filter
            (fun c => String.eqb (Conflict.olderSummaryId c) summaryId
                      || String.eqb (Conflict.newerSummaryId c) summaryId)
            all)).

Record Stats := {
  total : nat;
  open : nat;
  resolved : nat;
  dismissed : nat;
  highSeverity : nat;
  mediumSeverity : nat;
  lowSeverity : nat
}.

Definition hasStatus (s : Conflict.Status) (c : Conflict.t) : bool :=
  match Conflict.status c, s with
  | Conflict.open, Conflict.open => true
  | Conflict.resolved, Conflict.resolved => true
  | Conflict.dismissed, Conflict.dismissed => true
  | _, _ => false
  end.

(** [c.severity === level] *)
Definition hasSeverity (level : string) (c : Conflict.t) : bool :=
  match Conflict.severity c with
  | Js.Str s => String.eqb s level
  | _ => false
  end.

(** Aggregate statistics about the stored conflicts. *)
Definition getConflictStats : M Stats :=
  do all <- Ledger.getAllConflicts;
  ret {| total := length all;
         open := length (List.filter (hasStatus Conflict.open) all);
         resolved := length (List.filter (hasStatus Conflict.resolved) all);
         dismissed := length (List.filter (hasStatus Conflict.dismissed) all);
         highSeverity := length (List.filter (hasSeverity "high") all);
         mediumSeverity := length (List.filter (hasSeverity "medium") all);
         lowSeverity := length (List.filter (hasSeverity "low") all) |}.

End Queries.

(* ------------------------------------------------------------------ *)
(** ** More vocabulary *)

Module Props2.

(** Every character of the string passes the test. *)
Fixpoint allChars (p : ascii -> bool) (s : string) : bool :=
  match s with
  | EmptyString => true
  | String a r => p a && allChars p r
  end.

(** A lower-case letter or a digit. *)
Definition isTokenChar (c : ascii) : bool := Text.isLower c || Text.isDigit c.

(** The characters a sanitized file name is made of. *)
Definition isSafeChar (c : ascii) : bool :=
  Text.isLower c || Text.isUpper c || Text.isDigit c
  || (Text.code c =? 95) || (Text.code c =? 45).

(** None of the characters [<], [>], double quote and apostrophe. *)
Definition isInertChar (c : ascii) : bool :=
  negb (Ascii.eqb c "<"%char) && negb (Ascii.eqb c ">"%char)
  && negb (Ascii.eqb c (ascii_of_nat 34)) && negb (Ascii.eqb c "'"%char).

(** The replacement of one character by [escapeHtml]. *)
Definition escapeChar (c : ascii) : string :=
  if Ascii.eqb c "&"%char then "&amp;"
  else if Ascii.eqb c "<"%char then "&lt;"
  else if Ascii.eqb c ">"%char then "&gt;"
  else if Ascii.eqb c (ascii_of_nat 34) then "&quot;"
  else if Ascii.eqb c "'"%char then "&#39;"
  else String c EmptyString.

Fixpoint escapeEach (s : string) : string :=
  match s with
  | EmptyString => EmptyString
  | String a r => escapeChar a +:+ escapeEach r
  end.

(** Scores fall from the head of the list to its end. *)
Definition byScore (a b : Candidate.t) : Prop :=
  (Candidate.heuristicScore b <= Candidate.heuristicScore a)%Q.

(** A summary's timestamp parses. *)
Definition dated (s : Summary.t) : Prop := Summary.createdAt s <> None.

(** [a] is not dated after [b]. *)
Definition notAfter (a b : Summary.t) : Prop :=
  match Summary.createdAt a, Summary.createdAt b with
  | Some x, Some y => (x <= y)%Z
  | _, _ => False
  end.

End Props2.

Module Props3.

(** Every element is related to all the elements after it. *)
Fixpoint sortedBy {X : Type} (R : X -> X -> Prop) (l : list X) : Prop :=
  match l with
  | [] => True
  | x :: rest => Forall (R x) rest /\ sortedBy R rest
  end.

End Props3.

Module Props4.

(** The candidates that a full scan turns into conflicts: with a judge
    the accepted ones among the first [cap] new candidates, without one
    the new candidates whose score reaches 0.5. *)
Definition selected (h : Host.t) (o : Engine.ScanOptions)
           (existing : list Conflict.t) : list Candidate.t :=
  if Host.hasEnabledProvider h
  then List.filter (Props.accepts h)
         (firstn (Verify.capOf (Engine.maxCandidates o))
                 (Engine.newCandidates h o existing))
  else List.filter (fun c => Qle_bool 0.5 (Candidate.heuristicScore c))
                   (Engine.newCandidates h o existing).

(** The conflict records the candidate's two sides and contents. *)
Definition records (conflict : Conflict.t) (c : Candidate.t) : Prop :=
  Conflict.olderSummaryId conflict = Candidate.olderSummaryId c
  /\ Conflict.newerSummaryId conflict = Candidate.newerSummaryId c
  /\ Conflict.olderTopicId conflict = Candidate.olderTopicId c
  /\ Conflict.newerTopicId conflict = Candidate.newerTopicId c
  /\ Conflict.olderContent conflict = Candidate.olderContent c
  /\ Conflict.newerContent conflict = Candidate.newerContent c
  /\ Conflict.heuristicScore (Conflict.metadata conflict)
     = Candidate.heuristicScore c
  /\ Conflict.signals (Conflict.metadata conflict) = Candidate.signals c.

(** The batches of [verifyConflicts]. *)
Definition batchesOf (toVerify : list Candidate.t) : list (list Candidate.t) :=
  map (fun i => Verify.slice i (i + Patterns.MAX_CONCURRENT_AI_REQUESTS)
                             toVerify)
      (Verify.strides (length toVerify) Patterns.MAX_CONCURRENT_AI_REQUESTS).

(** [verifyBatch] run on the batches in turn, each after the one
    before it has settled; what they find is collected in order. *)
Fixpoint runBatches (h : Host.t) (batches : list (list Candidate.t))
         (verified : list Conflict.t) : M (list Conflict.t) :=
  match batches with
  | [] => ret verified
  | batch :: rest =>
      do found <- Verify.verifyBatch h batch;
      runBatches h rest (verified ++ found)
  end.

End Props4.

Module Props5.

(** Two records that differ at most in their lifecycle fields: status,
    resolution, resolution note and time of resolution. *)
Definition sameEvidence (a b : Conflict.t) : Prop :=
  Conflict.id a = Conflict.id b
  /\ Conflict.type a = Conflict.type b
  /\ Conflict.severity a = Conflict.severity b
  /\ Conflict.olderSummaryId a = Conflict.olderSummaryId b
  /\ Conflict.newerSummaryId a = Conflict.newerSummaryId b
  /\ Conflict.olderTopicId a = Conflict.olderTopicId b
  /\ Conflict.newerTopicId a = Conflict.newerTopicId b
  /\ Conflict.olderContent a = Conflict.olderContent b
  /\ Conflict.newerContent a = Conflict.newerContent b
  /\ Conflict.analysis a = Conflict.analysis b
  /\ Conflict.recommendation a = Conflict.recommendation b
  /\ Conflict.detectedAt a = Conflict.detectedAt b
  /\ Conflict.metadata a = Conflict.metadata b.

(** [a] was detected no earlier than [b], by the parsed dates. *)
Definition detectedNoEarlier (dateOf : string -> option Z)
           (a b : Conflict.t) : Prop :=
  match dateOf (Conflict.detectedAt b), dateOf (Conflict.detectedAt a) with
  | Some x, Some y => (x <= y)%Z
  | _, _ => False
  end.

Definition involvesSummary (summaryId : string) (c : Conflict.t) : Prop :=
  Conflict.olderSummaryId c = summaryId \/ Conflict.newerSummaryId c = summaryId.

Definition involvesTopic (topicId : string) (c : Conflict.t) : Prop :=
  Conflict.olderTopicId c = Some topicId
  \/ Conflict.newerTopicId c = Some topicId.

End Props5.

Module Props6.

(** A record as the heuristic-only path fills it in. *)
Definition heuristicRecord (c : Conflict.t) : Prop :=
  Conflict.type c = Js.Str "approach_conflict"
  /\ Conflict.severity c
     = (if Qle_bool 0.7 (Conflict.heuristicScore (Conflict.metadata c))
        then Js.Str "high" else Js.Str "medium")
  /\ Conflict.confidenceScore (Conflict.metadata c)
     = Js.Number (Conflict.heuristicScore (Conflict.metadata c))
  /\ Conflict.modelUsed (Conflict.metadata c) = None
  /\ Conflict.tokensUsed (Conflict.metadata c) = 0
  /\ Qle_bool 0.5 (Conflict.heuristicScore (Conflict.metadata c)) = true.

(** The conflict has the new summary on one side and the existing
    summary on the other. *)
Definition pairs (conflict : Conflict.t) (new existing : Summary.t) : Prop :=
  (Conflict.olderSummaryId conflict = Summary.id new
   /\ Conflict.newerSummaryId conflict = Summary.id existing)
  \/ (Conflict.olderSummaryId conflict = Summary.id existing
      /\ Conflict.newerSummaryId conflict = Summary.id new).

End Props6.

(* ------------------------------------------------------------------ *)
(** * Properties *)

(** ** Sets and counting *)

Section SetFacts.
  Implicit Types (A B : JsSet.t) (x : string).

Lemma has_iff A x : JsSet.has A x = true <-> x ∈ A.
  Proof.
    unfold JsSet.has. rewrite existsb_exists. split.
    - intros (y & Hy & Heq). apply String.eqb_eq in Heq. subst.
      by apply list_elem_of_In.
    - intros Hx. exists x. split; [by apply list_elem_of_In|apply String.eqb_refl].
  Qed.

Lemma has_false_iff A x : JsSet.has A x = false <-> x ∉ A.
  Proof.
    rewrite <- has_iff. destruct (JsSet.has A x); split; congruence.
  Qed.

Lemma countShared_from A B n :
    fold_left (fun k item => if JsSet.has B item then S k else k) A n
    = n + length (List.filter (JsSet.has B) A).
  Proof.
    revert n. induction A as [|a A IH]; intros n; simpl; [lia|].
    rewrite IH. destruct (JsSet.has B a); simpl; lia.
  Qed.

Lemma countShared_filter A B :
    Matcher.countShared A B = length (List.filter (JsSet.has B) A).
  Proof. unfold Matcher.countShared. by rewrite countShared_from. Qed.

Lemma countShared_le A B : Matcher.countShared A B <= length A.
  Proof.
    rewrite countShared_filter. induction A as [|a A IH]; simpl; [lia|].
    destruct (JsSet.has B a); simpl; lia.
  Qed.

  (** On duplicate-free lists the counting loop computes the size of
      the intersection. *)
Lemma countShared_inter A B :
    NoDup A ->
    Matcher.countShared A B
    = size ((list_to_set A : gset string) ∩ list_to_set B).
  Proof.
    rewrite countShared_filter.
    induction 1 as [|a A Ha HA IH].
    - simpl. by rewrite intersection_empty_l_L, size_empty.
    - rewrite list_to_set_cons. cbn [List.filter].
      destruct (JsSet.has B a) eqn:E.
      + apply has_iff in E. cbn [length]. rewrite IH.
        assert (Hd : (({[a]} ∪ list_to_set A) ∩ list_to_set B : gset string)
                     = {[a]} ∪ (list_to_set A ∩ list_to_set B)) by set_solver.
        rewrite Hd, (size_union {[a]} (list_to_set A ∩ list_to_set B)),
          size_singleton; [done|set_solver].
      + apply has_false_iff in E. rewrite IH. f_equal. set_solver.
  Qed.

Lemma size_union_inter (X Y : gset string) :
    size (X ∪ Y) + size (X ∩ Y) = size X + size Y.
  Proof.
    rewrite size_union_alt, size_difference_alt.
    assert (size (Y ∩ X) <= size Y) by (apply subseteq_size; set_solver).
    assert (Hc : X ∩ Y = Y ∩ X) by set_solver. rewrite Hc. lia.
  Qed.

Lemma add_elem A x y : y ∈ JsSet.add A x <-> y ∈ A \/ y = x.
  Proof.
    unfold JsSet.add. destruct (JsSet.has A x) eqn:E.
    - apply has_iff in E. split; [tauto|]. intros [?| ->]; done.
    - rewrite elem_of_app, list_elem_of_singleton. tauto.
  Qed.

Lemma add_NoDup A x : NoDup A -> NoDup (JsSet.add A x).
  Proof.
    intros HA. unfold JsSet.add. destruct (JsSet.has A x) eqn:E; [done|].
    apply has_false_iff in E. apply NoDup_app. repeat split; [done| |].
    - intros y Hy Hy'. apply list_elem_of_singleton in Hy'. by subst.
    - apply NoDup_singleton.
  Qed.

Lemma fold_add_NoDup xs A : NoDup A -> NoDup (fold_left JsSet.add xs A).
  Proof.
    revert A. induction xs as [|x xs IH]; intros A HA; simpl; [done|].
    apply IH. by apply add_NoDup.
  Qed.

Lemma fold_add_elem xs A y :
    y ∈ fold_left JsSet.add xs A <-> y ∈ A \/ y ∈ xs.
  Proof.
    revert A. induction xs as [|x xs IH]; intros A; simpl.
    - rewrite elem_of_nil. tauto.
    - rewrite IH, add_elem, elem_of_cons. tauto.
  Qed.

  (** [new Set(xs)] has no duplicates and the elements of [xs]. *)
Lemma ofList_NoDup xs : NoDup (JsSet.ofList xs).
  Proof. apply fold_add_NoDup. constructor. Qed.

Lemma ofList_elem xs y : y ∈ JsSet.ofList xs <-> y ∈ xs.
  Proof.
    unfold JsSet.ofList. rewrite fold_add_elem, elem_of_nil. tauto.
  Qed.
End SetFacts.

(** ** Numbers *)

Section NumFacts.
  Open Scope Q_scope.

Lemma ofNat_nonneg n : 0 <= Num.ofNat n.
  Proof. unfold Num.ofNat, Qle. simpl. lia. Qed.

Lemma ofNat_pos n : (0 < n)%nat -> 0 < Num.ofNat n.
  Proof. intros H. unfold Num.ofNat, Qlt. simpl. lia. Qed.

Lemma ofNat_le n m : (n <= m)%nat -> Num.ofNat n <= Num.ofNat m.
  Proof. intros H. unfold Num.ofNat. rewrite <- Zle_Qle. lia. Qed.

Lemma ratio_bounds n m :
    (n <= m)%nat -> (0 < m)%nat ->
    0 <= Num.ofNat n / Num.ofNat m <= 1.
  Proof.
    intros Hnm Hm. split.
    - apply Qle_shift_div_l; [by apply ofNat_pos|].
      rewrite Qmult_0_l. apply ofNat_nonneg.
    - apply Qle_shift_div_r; [by apply ofNat_pos|].
      rewrite Qmult_1_l. by apply ofNat_le.
  Qed.

Lemma min_le_r x y : Num.min x y <= y.
  Proof.
    unfold Num.min. destruct (Qle_bool x y) eqn:E.
    - by apply Qle_bool_iff.
    - apply Qle_refl.
  Qed.

Lemma ltb_lt x y : Num.ltb x y = true <-> x < y.
  Proof.
    unfold Num.ltb. rewrite negb_true_iff. split.
    - intros H. apply Qnot_le_lt. intros Hle.
      apply Qle_bool_iff in Hle. congruence.
    - intros H. destruct (Qle_bool y x) eqn:E; [|done].
      apply Qle_bool_iff in E. exfalso. by apply (Qlt_not_le x y).
  Qed.
End NumFacts.

(** ** Jaccard similarity *)

(** C7. On sets of strings, [jaccardSimilarity A B] is 0 when both sets
    are empty, is [|A ∩ B| / |A ∪ B|] otherwise, is 1 when the two sets
    have the same elements and are not empty, and always lies between 0
    and 1. *)
Theorem jaccardSimilarity_spec (A B : JsSet.t) :
  NoDup A -> NoDup B ->
  let SA : gset string := list_to_set A in
  let SB : gset string := list_to_set B in
  (A = [] -> B = [] -> Matcher.jaccardSimilarity A B = 0%Q)
  /\ (~ (A = [] /\ B = []) ->
      (Matcher.jaccardSimilarity A B
       == Num.ofNat (size (SA ∩ SB)) / Num.ofNat (size (SA ∪ SB)))%Q)
  /\ (A <> [] -> SA = SB -> (Matcher.jaccardSimilarity A B == 1)%Q)
  /\ (0 <= Matcher.jaccardSimilarity A B <= 1)%Q.
Proof.
  intros HA HB SA SB.
  assert (Hi : Matcher.countShared A B = size (SA ∩ SB))
    by by apply countShared_inter.
  assert (HsA : size SA = length A) by by apply size_list_to_set.
  assert (HsB : size SB = length B) by by apply size_list_to_set.
  assert (Hu : length A + length B - Matcher.countShared A B = size (SA ∪ SB)).
  { pose proof (size_union_inter SA SB). lia. }
  assert (Hle : size (SA ∩ SB) <= size (SA ∪ SB))
    by (apply subseteq_size; set_solver).
  assert (Hne : ~ (A = [] /\ B = []) ->
                Matcher.jaccardSimilarity A B
                = (Num.ofNat (size (SA ∩ SB)) / Num.ofNat (size (SA ∪ SB)))%Q
                /\ 0 < size (SA ∪ SB)).
  { intros Hnot. unfold Matcher.jaccardSimilarity, JsSet.size.
    assert (0 < size (SA ∪ SB)).
    { assert (size SA <= size (SA ∪ SB)) by (apply subseteq_size; set_solver).
      assert (size SB <= size (SA ∪ SB)) by (apply subseteq_size; set_solver).
      destruct A, B; simpl in *; try lia; tauto. }
    destruct ((length A =? 0) && (length B =? 0)) eqn:E.
    - apply andb_true_iff in E as [EA EB].
      apply Nat.eqb_eq in EA, EB.
      destruct A, B; simpl in *; try lia; tauto.
    - rewrite Hu, Hi.
      destruct (size (SA ∪ SB) =? 0) eqn:E0; [apply Nat.eqb_eq in E0; lia|done]. }
  repeat split.
  - intros -> ->. reflexivity.
  - intros Hnot. destruct (Hne Hnot) as [-> _]. reflexivity.
  - intros HnA Heq.
    destruct Hne as [-> Hpos]; [by intros [? _]|].
    assert (Hii : SA ∩ SA = SA) by set_solver.
    assert (Huu : SA ∪ SA = SA) by set_solver.
    rewrite <- Heq in Hpos |- *. rewrite Huu in Hpos. rewrite Hii, Huu.
    apply Qmult_inv_r. intros H0.
    pose proof (ofNat_pos _ Hpos) as Hp.
    exact (Qlt_not_eq _ _ Hp (Qeq_sym _ _ H0)).
  - destruct (decide (A = [] /\ B = [])) as [[-> ->]|Hnot]; [done|].
    destruct (Hne Hnot) as [-> Hpos]. by apply ratio_bounds.
  - destruct (decide (A = [] /\ B = [])) as [[-> ->]|Hnot]; [done|].
    destruct (Hne Hnot) as [-> Hpos]. by apply ratio_bounds.
Qed.

Lemma jaccardSimilarity_spec_witness :
  let A := ["redis"; "cache"; "layer"] in
  let B := ["cache"; "redis"; "queue"] in
  NoDup A /\ NoDup B
  /\ (Matcher.jaccardSimilarity A B == 2 # 4)%Q
  /\ (Matcher.jaccardSimilarity A (rev A) == 1)%Q.
Proof.
  intros A B.
  assert (HA : NoDup A) by (apply (bool_decide_unpack _); by vm_compute).
  assert (HB : NoDup B) by (apply (bool_decide_unpack _); by vm_compute).
  assert (HR : NoDup (rev A)) by (apply (bool_decide_unpack _); by vm_compute).
  split; [exact HA|]. split; [exact HB|]. split.
  - destruct (jaccardSimilarity_spec A B HA HB) as (_ & H & _).
    rewrite H by (intros [? _]; done). by vm_compute.
  - destruct (jaccardSimilarity_spec A (rev A) HA HR) as (_ & _ & H & _).
    apply H; [done|]. by vm_compute.
Defined.

(** ** The pairwise matcher *)

Section MatcherFacts.
  Import Matcher Props.
  Open Scope Q_scope.












  (** Every step leaves the score where it was or raises it, and the
      steps without the boost raise it only together with a signal. *)
Lemma compareItems_cases olderItem olderTokens newerItem :
    compareItems olderItem olderTokens newerItem = []
    \/ exists acc,
        compareItems olderItem olderTokens newerItem
        = [{| olderContent := text olderItem;
              newerContent := text newerItem;
              olderContentType := type olderItem;
              newerContentType := type newerItem;
              signals := fst acc;
              score := Num.min (snd acc) 1.0 |}]
        /\ fst acc <> []
        /\ acc = pairSignals olderTokens (tokensOf (text newerItem))
                             (text olderItem) (text newerItem)
                             (jaccardSimilarity olderTokens
                                                (tokensOf (text newerItem))).
  Proof.
    unfold compareItems. fold (tokensOf (text newerItem)).
    destruct (JsSet.size _ =? 0)%nat; [by left|].
    destruct (Num.ltb _ 0.05); [by left|].
    destruct (0 <? length _)%nat eqn:E; [|by left].
    right. eexists. split; [reflexivity|]. split; [|reflexivity].
    apply Nat.ltb_lt in E. intros H. rewrite H in E. simpl in E. lia.
  Qed.

Lemma compareDecisions_elem older newer c :
    In c (compareDecisions older newer) ->
    exists olderItem newerItem,
      In olderItem (itemsOf older) /\ In newerItem (itemsOf newer)
      /\ In c (compareItems olderItem (tokensOf (text olderItem)) newerItem).
  Proof.
    unfold compareDecisions.
    destruct (_ || _); [done|].
    rewrite in_flat_map. intros (oi & Hoi & Hc).
    fold (tokensOf (text oi)) in Hc.
    destruct (JsSet.size _ =? 0)%nat; [done|].
    apply in_flat_map in Hc as (ni & Hni & Hc). eauto.
  Qed.
End MatcherFacts.

(** C5. Every candidate that [compareDecisions] emits has a score of at
    most 1 and at least one signal; a pair of fragments for which no
    signal fired gives no candidate, whatever its keyword overlap. *)
Theorem compareDecisions_capped_and_signalled (older newer : Summary.t) :
  (forall c, In c (Matcher.compareDecisions older newer) ->
             (Matcher.score c <= 1)%Q /\ Matcher.signals c <> [])
  /\ (forall olderItem newerItem,
        fst (Props.signalsOf (Matcher.text olderItem) (Matcher.text newerItem))
        = [] ->
        Matcher.compareItems olderItem
                             (Props.tokensOf (Matcher.text olderItem))
                             newerItem = []).
Proof.
  split.
  - intros c Hc.
    apply compareDecisions_elem in Hc as (oi & ni & _ & _ & Hc).
    destruct (compareItems_cases oi (Props.tokensOf (Matcher.text oi)) ni)
      as [E|(acc & E & Hne & _)]; rewrite E in Hc; [done|].
    destruct Hc as [<-|[]]. simpl. split; [|done].
    apply Qle_trans with 1.0%Q; [apply min_le_r|by unfold Qle].
  - intros oi ni Hnone.
    destruct (compareItems_cases oi (Props.tokensOf (Matcher.text oi)) ni)
      as [E|(acc & E & Hne & Hacc)]; [done|].
    exfalso. apply Hne. rewrite Hacc. exact Hnone.
Qed.

Lemma compareDecisions_capped_and_signalled_witness :
  (exists c, In c (Matcher.compareDecisions Samples.apiOlder Samples.apiNewer)
             /\ (Matcher.score c <= 1)%Q /\ Matcher.signals c <> [])
  /\ fst (Props.signalsOf Samples.cacheLayer Samples.cacheCluster) = []
  /\ (0 < snd (Props.signalsOf Samples.cacheLayer Samples.cacheCluster))%Q
  /\ Matcher.compareItems (Samples.fragment Samples.cacheLayer)
                          (Props.tokensOf Samples.cacheLayer)
                          (Samples.fragment Samples.cacheCluster) = [].
Proof.
  pose proof (compareDecisions_capped_and_signalled
                Samples.apiOlder Samples.apiNewer) as [Hcap Hnone].
  assert (Hsig : fst (Props.signalsOf Samples.cacheLayer Samples.cacheCluster)
                 = []) by (by vm_compute).
  split; [|split; [exact Hsig|split; [by vm_compute|]]].
  - assert (E : exists c rest,
               Matcher.compareDecisions Samples.apiOlder Samples.apiNewer
               = c :: rest) by (vm_compute; eauto).
    destruct E as (c & rest & E). exists c.
    assert (Hin : In c (Matcher.compareDecisions Samples.apiOlder
                                                 Samples.apiNewer))
      by (rewrite E; by left).
    split; [exact Hin|]. exact (Hcap c Hin).
  - exact (Hnone (Samples.fragment Samples.cacheLayer)
                 (Samples.fragment Samples.cacheCluster) Hsig).
Defined.

(** ** Unrelated fragments *)

Lemma countShared_disjoint (A B : list string) :
  (forall x, x ∈ A -> x ∉ B) -> Matcher.countShared A B = 0.
Proof.
  intros Hd. rewrite countShared_filter.
  induction A as [|a A IH]; [done|]. cbn [List.filter].
  destruct (JsSet.has B a) eqn:E.
  - apply has_iff in E. exfalso. apply (Hd a); [by left|done].
  - apply IH. intros x Hx. apply Hd. by right.
Qed.

Lemma jaccardSimilarity_disjoint (A B : list string) :
  (forall x, x ∈ A -> x ∉ B) -> (Matcher.jaccardSimilarity A B == 0)%Q.
Proof.
  intros Hd. unfold Matcher.jaccardSimilarity.
  destruct (_ && _); [reflexivity|].
  rewrite (countShared_disjoint A B Hd).
  destruct (_ =? 0); [reflexivity|].
  unfold Qdiv, Num.ofNat. simpl (inject_Z (Z.of_nat 0)). ring.
Qed.

Lemma flat_map_nil {X Y : Type} (f : X -> list Y) (l : list X) :
  (forall x, In x l -> f x = []) -> flat_map f l = [].
Proof.
  induction l as [|x l IH]; intros H; [done|]. cbn [flat_map].
  rewrite (H x) by (by left). apply IH. intros y Hy. apply H. by right.
Qed.

(** C6. Two fragments whose token sets share no element have Jaccard
    similarity 0 and give no candidate: the matcher leaves the pair at
    the overlap gate, and [compareDecisions] emits nothing when every
    pair of fragments is like that. *)
Theorem disjoint_fragments_give_no_candidate :
  (forall olderItem newerItem : Matcher.Item,
      (forall x, x ∈ Props.tokensOf (Matcher.text olderItem) ->
                 x ∉ Props.tokensOf (Matcher.text newerItem)) ->
      (Matcher.jaccardSimilarity (Props.tokensOf (Matcher.text olderItem))
                                 (Props.tokensOf (Matcher.text newerItem))
       == 0)%Q
      /\ Matcher.compareItems olderItem
                              (Props.tokensOf (Matcher.text olderItem))
                              newerItem = [])
  /\ (forall older newer : Summary.t,
        (forall olderItem newerItem x,
            In olderItem (Matcher.itemsOf older) ->
            In newerItem (Matcher.itemsOf newer) ->
            x ∈ Props.tokensOf (Matcher.text olderItem) ->
            x ∉ Props.tokensOf (Matcher.text newerItem)) ->
        Matcher.compareDecisions older newer = []).
Proof.
  assert (Hpair : forall olderItem newerItem : Matcher.Item,
      (forall x, x ∈ Props.tokensOf (Matcher.text olderItem) ->
                 x ∉ Props.tokensOf (Matcher.text newerItem)) ->
      (Matcher.jaccardSimilarity (Props.tokensOf (Matcher.text olderItem))
                                 (Props.tokensOf (Matcher.text newerItem))
       == 0)%Q
      /\ Matcher.compareItems olderItem
                              (Props.tokensOf (Matcher.text olderItem))
                              newerItem = []).
  { intros oi ni Hd.
    pose proof (jaccardSimilarity_disjoint _ _ Hd) as Hj.
    split; [exact Hj|].
    unfold Matcher.compareItems.
    fold (Props.tokensOf (Matcher.text ni)).
    destruct (JsSet.size _ =? 0); [done|].
    destruct (Num.ltb _ 0.05) eqn:E; [done|].
    exfalso. assert (Hlt : Num.ltb
      (Matcher.jaccardSimilarity (Props.tokensOf (Matcher.text oi))
                                 (Props.tokensOf (Matcher.text ni))) 0.05 = true).
    { apply ltb_lt. rewrite Hj. by unfold Qlt. }
    congruence. }
  split; [exact Hpair|].
  intros older newer Hd. unfold Matcher.compareDecisions.
  destruct (_ || _); [done|].
  apply flat_map_nil. intros oi Hoi.
  fold (Props.tokensOf (Matcher.text oi)).
  destruct (JsSet.size _ =? 0); [done|].
  apply flat_map_nil. intros ni Hni.
  apply Hpair. intros x Hx. by apply (Hd oi ni x).
Qed.

Lemma disjoint_fragments_give_no_candidate_witness :
  (forall x, x ∈ Props.tokensOf Samples.cacheLayer ->
             x ∉ Props.tokensOf Samples.queueCluster)
  /\ Matcher.compareItems (Samples.fragment Samples.cacheLayer)
                          (Props.tokensOf Samples.cacheLayer)
                          (Samples.fragment Samples.queueCluster) = []
  /\ Matcher.compareDecisions
       (Samples.record "s1" (Some "backend") [Samples.cacheLayer] (Some 1000%Z))
       (Samples.record "s2" (Some "backend") [Samples.queueCluster] (Some 2000%Z))
     = [].
Proof.
  assert (Hd : forall x, x ∈ Props.tokensOf Samples.cacheLayer ->
                         x ∉ Props.tokensOf Samples.queueCluster).
  { apply Forall_forall. apply (bool_decide_unpack _). by vm_compute. }
  destruct disjoint_fragments_give_no_candidate as [Hpair Hall].
  split; [exact Hd|]. split.
  - exact (proj2 (Hpair (Samples.fragment Samples.cacheLayer)
                        (Samples.fragment Samples.queueCluster) Hd)).
  - apply Hall. intros oi ni x Hoi Hni.
    destruct Hoi as [<-|[]]. destruct Hni as [<-|[]]. apply Hd.
Defined.

(** ** Technology switches *)

Section SwitchFacts.
  Import Matcher Props.
















End SwitchFacts.




(** ** Candidate discovery *)

Section DiscoveryFacts.
  Import Discovery.

Lemma insertSorted_In {X : Type} (f : X -> X -> bool) (x y : X) (l : list X) :
    In y (insertSorted f x l) <-> y = x \/ In y l.
  Proof.
    induction l as [|z l IH]; simpl; [intuition|].
    destruct (f z x); simpl; [rewrite IH|]; intuition.
  Qed.

Lemma stableSort_from_In {X : Type} (f : X -> X -> bool) (l acc : list X) y :
    In y (fold_left (fun a x => insertSorted f x a) l acc)
    <-> In y acc \/ In y l.
  Proof.
    revert acc. induction l as [|x l IH]; intros acc; simpl; [intuition|].
    rewrite IH, insertSorted_In. intuition.
  Qed.

  (** Sorting keeps the elements. *)
Lemma stableSort_In {X : Type} (f : X -> X -> bool) (l : list X) y :
    In y (stableSort f l) <-> In y l.
  Proof. unfold stableSort. rewrite stableSort_from_In. simpl. intuition. Qed.

Lemma dedup_In seen cs c : In c (dedup seen cs) -> In c cs.
  Proof.
    revert seen. induction cs as [|x cs IH]; intros seen; simpl; [done|].
    destruct (JsSet.has seen (Candidate.keyOf x)).
    - intros H. right. by apply (IH seen).
    - intros [->|H]; [by left|]. right. by apply (IH _ H).
  Qed.

Lemma orderedPairs_In {X : Type} (l : list X) (a b : X) :
    In (a, b) (orderedPairs l) -> In a l /\ In b l.
  Proof.
    induction l as [|x l IH]; simpl; [done|].
    rewrite in_app_iff, in_map_iff.
    intros [(y & [= -> ->] & Hy)|H]; [by auto|].
    destruct (IH H). auto.
  Qed.

  Import Props.

Lemma groupPush_grouped m k s x :
    grouped (groupPush m k s) x <-> grouped m x \/ x = s.
  Proof.
    unfold grouped. induction m as [|[k' g] m IH]; simpl.
    - split.
      + intros (k0 & g0 & [[= <- <-]|[]] & Hx). destruct Hx as [->|[]]. by right.
      + intros [(k0 & g0 & [] & _)| ->]. exists k, [s]. split; by left.
    - destruct (String.eqb k' k).
      + split.
        * intros (k0 & g0 & [[= <- <-]|Hin] & Hx).
          -- apply in_app_iff in Hx as [Hx|[->|[]]]; [|by right].
             left. exists k', g. split; [by left|done].
          -- left. exists k0, g0. split; [by right|done].
        * intros [(k0 & g0 & [[= <- <-]|Hin] & Hx)| ->].
          -- exists k', (g ++ [s]). split; [by left|].
             apply in_app_iff. by left.
          -- exists k0, g0. split; [by right|done].
          -- exists k', (g ++ [s]). split; [by left|].
             apply in_app_iff. right. by left.
      + split.
        * intros (k0 & g0 & [[= <- <-]|Hin] & Hx).
          -- left. exists k', g. split; [by left|done].
          -- destruct (proj1 IH) as [(k1 & g1 & H1 & H2)| ->];
               [by exists k0, g0| |by right].
             left. exists k1, g1. split; [by right|done].
        * intros [(k0 & g0 & [[= <- <-]|Hin] & Hx)| ->].
          -- exists k', g. split; [by left|done].
          -- destruct (proj2 IH) as (k1 & g1 & H1 & H2);
               [left; by exists k0, g0|].
             exists k1, g1. split; [by right|done].
          -- destruct (proj2 IH) as (k1 & g1 & H1 & H2); [by right|].
             exists k1, g1. split; [by right|done].
  Qed.

Lemma groupByTopic_from summaries m x :
    grouped
      (fold_left
         (fun m s =>
            match assigned (Summary.topicId s) with
            | Some k => groupPush m k s
            | None => m
            end)
         summaries m) x ->
    grouped m x
    \/ (In x summaries /\ assigned (Summary.topicId x) <> None).
  Proof.
    revert m. induction summaries as [|s l IH]; intros m; simpl; [by left|].
    intros H. apply IH in H as [H|[H1 H2]]; [|right; by auto].
    destruct (assigned (Summary.topicId s)) eqn:E; [|by left].
    apply groupPush_grouped in H as [H| ->]; [by left|].
    right. split; [by left|]. by rewrite E.
  Qed.

Lemma groupByTopic_grouped summaries x :
    grouped (groupByTopic summaries) x ->
    In x summaries /\ assigned (Summary.topicId x) <> None.
  Proof.
    intros H. apply groupByTopic_from in H as [(k & g & [] & _)|H]. exact H.
  Qed.

Lemma sortGroups_grouped m x : grouped (sortGroups m) x -> grouped m x.
  Proof.
    unfold grouped, sortGroups. intros (k & g & Hin & Hx).
    apply in_map_iff in Hin as ([k' g'] & [= <- <-] & Hin).
    apply stableSort_In in Hx. eauto.
  Qed.

Lemma candidatesOf_fields threshold older newer c :
    In c (candidatesOf threshold older newer) ->
    Candidate.olderSummaryId c = Summary.id older
    /\ Candidate.newerSummaryId c = Summary.id newer
    /\ Candidate.olderTopicId c = Summary.topicId older
    /\ Candidate.newerTopicId c = Summary.topicId newer.
  Proof.
    unfold candidatesOf. rewrite in_map_iff. by intros (p & <- & _).
  Qed.

  (** Both summaries of a candidate of either pass come from the groups. *)
Lemma intraTopic_pair m c :
    In c (intraTopic m) ->
    exists older newer,
      grouped m older /\ grouped m newer
      /\ In c (candidatesOf Patterns.HEURISTIC_SCORE_THRESHOLD older newer).
  Proof.
    unfold intraTopic. rewrite in_flat_map. intros ([k g] & Hg & Hc).
    apply in_flat_map in Hc as ([older newer] & Hp & Hc).
    apply orderedPairs_In in Hp as [Ho Hn].
    exists older, newer. repeat split; [by exists k, g|by exists k, g|done].
  Qed.

Lemma crossTopic_pair topics m c :
    In c (crossTopic topics m) ->
    exists older newer,
      grouped m older /\ grouped m newer
      /\ In c (candidatesOf Patterns.HEURISTIC_SCORE_THRESHOLD older newer).
  Proof.
    unfold crossTopic. rewrite in_flat_map.
    intros ([[idA groupA] [idB groupB]] & Hp & Hc).
    apply orderedPairs_In in Hp as [HA HB].
    destruct (topicGet topics idA); [|done].
    destruct (topicGet topics idB); [|done].
    destruct (Qle_bool _ 0.5); [done|].
    apply in_flat_map in Hc as (sA & HsA & Hc).
    apply in_flat_map in Hc as (sB & HsB & Hc).
    assert (grouped m sA) by by exists idA, groupA.
    assert (grouped m sB) by by exists idB, groupB.
    destruct (timeLe _ _); eauto.
  Qed.

Lemma unassigned_In summaries s :
    In s (unassigned summaries) -> assigned (Summary.topicId s) = None.
  Proof.
    unfold unassigned. rewrite filter_In. intros [_ H].
    by destruct (assigned (Summary.topicId s)).
  Qed.

Lemma scanCorpus_pair summaries topics c :
    In c (scanCorpus summaries topics) ->
    exists older newer,
      In older summaries /\ In newer summaries
      /\ assigned (Summary.topicId older) <> None
      /\ assigned (Summary.topicId newer) <> None
      /\ In c (candidatesOf Patterns.HEURISTIC_SCORE_THRESHOLD older newer).
  Proof.
    unfold scanCorpus. destruct (length summaries <? 2); [done|].
    rewrite stableSort_In. intros H. apply dedup_In in H.
    apply in_app_iff in H as [H|H];
      [apply intraTopic_pair in H|apply crossTopic_pair in H];
      destruct H as (older & newer & Ho & Hn & Hc);
      apply sortGroups_grouped, groupByTopic_grouped in Ho as [? ?];
      apply sortGroups_grouped, groupByTopic_grouped in Hn as [? ?];
      exists older, newer; auto.
  Qed.
End DiscoveryFacts.

(** C10. Every candidate that [findCandidateConflicts] returns is built
    from two summaries of the store that both have a topic: its two
    [topicId]s are not null, and neither summary is in the [unassigned]
    bucket. *)
Theorem candidates_come_from_assigned_summaries (h : Host.t) (c : Candidate.t) :
  In c (Engine.findCandidateConflicts h) ->
  exists summaries topics older newer,
    Host.dbGetAll h = Some (summaries, topics)
    /\ In older summaries /\ In newer summaries
    /\ Candidate.olderSummaryId c = Summary.id older
    /\ Candidate.newerSummaryId c = Summary.id newer
    /\ Candidate.olderTopicId c = Summary.topicId older
    /\ Candidate.newerTopicId c = Summary.topicId newer
    /\ Discovery.assigned (Candidate.olderTopicId c) <> None
    /\ Discovery.assigned (Candidate.newerTopicId c) <> None
    /\ ~ In older (Discovery.unassigned summaries)
    /\ ~ In newer (Discovery.unassigned summaries).
Proof.
  unfold Engine.findCandidateConflicts.
  destruct (Host.dbGetAll h) as [[summaries topics]|]; [|done].
  intros Hc.
  apply scanCorpus_pair in Hc as (older & newer & Ho & Hn & Hao & Han & Hc).
  apply candidatesOf_fields in Hc as (H1 & H2 & H3 & H4).
  exists summaries, topics, older, newer.
  rewrite H3, H4. repeat split; try done.
  - intros Hu. by apply unassigned_In in Hu.
  - intros Hu. by apply unassigned_In in Hu.
Qed.

Lemma candidates_come_from_assigned_summaries_witness :
  exists c,
    In c (Engine.findCandidateConflicts SampleHosts.apiHost)
    /\ Discovery.assigned (Candidate.olderTopicId c) <> None
    /\ Discovery.assigned (Candidate.newerTopicId c) <> None.
Proof.
  assert (E : exists c rest,
             Engine.findCandidateConflicts SampleHosts.apiHost = c :: rest)
    by (vm_compute; eauto).
  destruct E as (c & rest & E). exists c.
  assert (Hin : In c (Engine.findCandidateConflicts SampleHosts.apiHost))
    by (rewrite E; by left).
  split; [exact Hin|].
  destruct (candidates_come_from_assigned_summaries SampleHosts.apiHost c Hin)
    as (ss & ts & older & newer & _ & _ & _ & _ & _ & _ & _ & H1 & H2 & _).
  by split.
Defined.

(** ** Verification *)

Section VerifyFacts.
  Import Props.
  Variable h : Host.t.

Lemma verifySingleCandidate_cases (c : Candidate.t) (w : World) :
    (accepts h c = false /\ Verify.verifySingleCandidate h c w = (None, w))
    \/ (accepts h c = true
        /\ exists conflict,
            Verify.verifySingleCandidate h c w
            = (Some conflict, {| stored := stored w; tick := S (S (tick w)) |})
            /\ Conflict.keyOf conflict = Candidate.keyOf c
            /\ fresh conflict).
  Proof.
    unfold accepts, Verify.verifySingleCandidate.
    destruct (Host.complete h c) as [result|]; [|by left].
    destruct (Host.content result) as [parsed|]; [|by left].
    destruct (Verify.rejected h parsed) as [[|]|]; [by left| |by left].
    right. split; [done|]. eexists. split; [reflexivity|]. by split.
  Qed.

Lemma mapM_verify (l : list Candidate.t) (w : World) :
    let r := mapM (Verify.verifySingleCandidate h) l w in
    stored (snd r) = stored w
    /\ map Conflict.keyOf (omap (fun x => x) (fst r))
       = map Candidate.keyOf (List.filter (accepts h) l)
    /\ Forall fresh (omap (fun x => x) (fst r)).
  Proof.
    revert w. induction l as [|c l IH]; intros w; [by repeat split|].
    cbn [mapM List.filter]. cbv [bind ret].
    destruct (verifySingleCandidate_cases c w)
      as [[Hrej ->]|[Hacc (conflict & -> & Hkey & Hfresh)]].
    - rewrite Hrej. specialize (IH w). cbn zeta in IH.
      destruct (mapM (Verify.verifySingleCandidate h) l w) as [ys w'].
      exact IH.
    - rewrite Hacc.
      specialize (IH {| stored := stored w; tick := S (S (tick w)) |}).
      cbn zeta in IH.
      destruct (mapM (Verify.verifySingleCandidate h) l _) as [ys w'].
      destruct IH as (Hs & Hk & Hf). cbn in *.
      repeat split; [done|by rewrite Hkey, Hk|by constructor].
  Qed.

Lemma verifyBatches_spec (toVerify : list Candidate.t) (starts : list nat)
        (verified : list Conflict.t) (w : World) :
    let r := Verify.verifyBatches h toVerify starts verified w in
    stored (snd r) = stored w
    /\ exists found,
        fst r = verified ++ found
        /\ map Conflict.keyOf found
           = map Candidate.keyOf
               (List.filter (accepts h)
                  (flat_map
                     (fun i => Verify.slice
                                 i (i + Patterns.MAX_CONCURRENT_AI_REQUESTS)
                                 toVerify)
                     starts))
        /\ Forall fresh found.
  Proof.
    revert verified w. induction starts as [|i starts IH]; intros verified w.
    - cbn. split; [done|]. exists []. by rewrite app_nil_r.
    - cbn [Verify.verifyBatches flat_map]. cbv [bind Verify.verifyBatch ret].
      pose proof (mapM_verify
                    (Verify.slice i (i + Patterns.MAX_CONCURRENT_AI_REQUESTS)
                                  toVerify) w) as Hb.
      cbn zeta in Hb.
      destruct (mapM (Verify.verifySingleCandidate h) _ w) as [results w'].
      destruct Hb as (Hs & Hk & Hf). cbn [fst snd] in *. cbv beta iota zeta.
      specialize (IH (verified ++ omap (fun x => x) results) w').
      cbn zeta in IH. destruct IH as (Hs' & found & -> & Hk' & Hf').
      split; [congruence|].
      exists (omap (fun x => x) results ++ found).
      split; [by rewrite app_assoc|].
      rewrite List.filter_app, !map_app, Hk, Hk'. split; [done|].
      by apply Forall_app.
  Qed.

Lemma firstn_add {X : Type} (a b : nat) (l : list X) :
    firstn (a + b) l = firstn a l ++ firstn b (skipn a l).
  Proof.
    revert l. induction a as [|a IH]; intros l; [done|].
    destruct l as [|x l]; [by destruct b|]. cbn. by rewrite IH.
  Qed.

Lemma slices_firstn {X : Type} (step n : nat) (l : list X) :
    flat_map (fun i => Verify.slice i (i + step) l)
             (map (fun k => k * step) (seq 0 n))
    = firstn (n * step) l.
  Proof.
    induction n as [|n IH]; [done|].
    rewrite seq_S, map_app, flat_map_app, IH. cbn [map flat_map].
    rewrite app_nil_r. unfold Verify.slice.
    replace (0 + n) with n by lia.
    replace (n * step + step - n * step) with step by lia.
    replace (S n * step) with (n * step + step) by lia.
    by rewrite firstn_add.
  Qed.

  (** The batches are the list, cut into pieces. *)
Lemma batches_cover {X : Type} (l : list X) :
    flat_map (fun i => Verify.slice
                         i (i + Patterns.MAX_CONCURRENT_AI_REQUESTS) l)
             (Verify.strides (length l) Patterns.MAX_CONCURRENT_AI_REQUESTS)
    = l.
  Proof.
    unfold Verify.strides. rewrite slices_firstn.
    apply firstn_all2. unfold Patterns.MAX_CONCURRENT_AI_REQUESTS.
    pose proof (Nat.div_mod_eq (length l + 5 - 1) 5).
    pose proof (Nat.mod_upper_bound (length l + 5 - 1) 5). lia.
  Qed.

  (** [verifyConflicts] leaves the stored list alone and returns, in
      order, one fresh conflict for each of the first [cap] candidates
      that the judge accepts. *)
Lemma verifyConflicts_spec (candidates : list Candidate.t)
        (maxCandidates : option nat) (w : World) :
    let r := Verify.verifyConflicts h candidates maxCandidates w in
    stored (snd r) = stored w
    /\ Forall fresh (fst r)
    /\ map Conflict.keyOf (fst r)
       = if Host.hasEnabledProvider h
         then map Candidate.keyOf
                (List.filter (accepts h)
                   (firstn (Verify.capOf maxCandidates) candidates))
         else [].
  Proof.
    unfold Verify.verifyConflicts.
    destruct (length candidates =? 0) eqn:E.
    - apply Nat.eqb_eq in E. destruct candidates; [|done]. cbn.
      rewrite firstn_nil. by destruct (Host.hasEnabledProvider h).
    - destruct (Host.hasEnabledProvider h); cbn [negb]; [|by cbn].
      pose proof (verifyBatches_spec
                    (firstn (Verify.capOf maxCandidates) candidates)
                    (Verify.strides
                       (length (firstn (Verify.capOf maxCandidates) candidates))
                       Patterns.MAX_CONCURRENT_AI_REQUESTS) [] w) as Hb.
      cbn zeta in Hb. destruct Hb as (Hs & found & Hr & Hk & Hf).
      rewrite batches_cover in Hk. rewrite Hr. cbn [app].
      by repeat split.
  Qed.

Lemma forEachM_save (cs : list Conflict.t) (w : World) :
    snd (forEachM Ledger.saveConflict cs w)
    = {| stored := stored w ++ cs; tick := tick w |}.
  Proof.
    revert w. induction cs as [|c cs IH]; intros w.
    - cbn. rewrite app_nil_r. by destruct w.
    - cbn [forEachM]. cbv [bind Ledger.saveConflict]. rewrite IH. cbn.
      by rewrite <- app_assoc.
  Qed.

Lemma heuristicConflict_spec (c : Candidate.t) (w : World) :
    exists conflict,
      Engine.heuristicConflict h c w
      = (conflict, {| stored := stored w; tick := S (S (tick w)) |})
      /\ Conflict.keyOf conflict = Candidate.keyOf c
      /\ fresh conflict.
  Proof. eexists. split; [reflexivity|]. by split. Qed.

Lemma heuristicOnly_spec (candidates : list Candidate.t) (w : World) :
    let r := Engine.heuristicOnly h candidates w in
    stored (snd r) = stored w /\ Forall fresh (fst r).
  Proof.
    unfold Engine.heuristicOnly.
    generalize (List.filter
                  (fun c => Qle_bool 0.5 (Candidate.heuristicScore c))
                  candidates) as l.
    intros l. revert w. induction l as [|c l IH]; intros w; [by split|].
    cbn [mapM]. cbv [bind ret].
    destruct (heuristicConflict_spec c w) as (conflict & -> & _ & Hfresh).
    specialize (IH {| stored := stored w; tick := S (S (tick w)) |}).
    cbn zeta in IH.
    destruct (mapM (Engine.heuristicConflict h) l _) as [ys w'].
    destruct IH as [Hs Hf]. cbn in *. split; [done|]. by constructor.
  Qed.
End VerifyFacts.

(** ** The judge's reply *)

Section ReplyFacts.
  Import Props.
  Variable h : Host.t.

  (** A candidate whose request fails or whose reply is not JSON is not
      accepted. *)
Lemma accepts_failure (c : Candidate.t) :
    Host.complete h c = None
    \/ (exists r, Host.complete h c = Some r /\ Host.content r = None) ->
    accepts h c = false.
  Proof.
    unfold accepts. intros [->|(r & -> & ->)]; reflexivity.
  Qed.

  (** A reply whose [isConflict] is a boolean and whose
      [confidenceScore] is a number is accepted exactly when the boolean
      is true and the number is at least 0.6. *)
Lemma accepts_typed_reply (c : Candidate.t) (r : Host.Completion)
        (fields : list (string * Js.Val)) (b : bool) (q : Q) :
    Host.complete h c = Some r ->
    Host.content r = Some (Js.Obj fields) ->
    Js.lookup fields "isConflict" = Js.Bool b ->
    Js.lookup fields "confidenceScore" = Js.Number q ->
    accepts h c = true <-> b = true /\ (0.6 <= q)%Q.
  Proof.
    intros Hc Hr Hb Hq. unfold accepts, Verify.rejected.
    rewrite Hc, Hr. cbn [Js.get]. rewrite Hb, Hq.
    cbn [Js.truthy Js.lessThan Js.toNumber].
    unfold Patterns.AI_CONFIDENCE_THRESHOLD, Num.ltb.
    destruct b; cbn [negb orb].
    - destruct (Qle_bool 0.6 q) eqn:E; cbn [negb].
      + apply Qle_bool_iff in E. tauto.
      + split; [done|]. intros [_ Hle]. apply Qle_bool_iff in Hle. congruence.
    - split; [done|]. by intros [? _].
  Qed.
End ReplyFacts.

(** C3, at the reply that breaks it. The judge answers
    [isConflict: true] and leaves [confidenceScore] out; the test
    [undefined < 0.6] is false, so the candidate is accepted and the full
    scan stores conflicts whose confidence score is [undefined], though
    no score of at least 0.6 was given. *)
Theorem reply_without_score_is_persisted :
  let h := SampleHosts.host [Samples.apiOlder; Samples.apiNewer] true
                            (fun _ => Some SampleHosts.scoreless) in
  let run := Engine.runFullScan h SampleHosts.defaults SampleHosts.emptyWorld in
  (forall c, Props.accepts h c = true)
  /\ Engine.verified (fst run) = 2
  /\ length (stored (snd run)) = 2
  /\ Forall (fun c => Conflict.confidenceScore (Conflict.metadata c)
                      = Js.Undefined)
            (stored (snd run)).
Proof.
  intros h run. split; [reflexivity|].
  split; [by vm_compute|]. split; [by vm_compute|].
  vm_compute. by repeat constructor.
Qed.

(** ** Full scan *)

Section ScanFacts.
  Import Props.
  Variable h : Host.t.
  Variable o : Engine.ScanOptions.

Lemma capOf_default :
    Verify.capOf
      (Some (match Engine.maxCandidates o with Some n => n | None => 20 end))
    = Verify.capOf (Engine.maxCandidates o).
  Proof. by destruct (Engine.maxCandidates o). Qed.

Lemma newCandidates_In (existing : list Conflict.t) (c : Candidate.t) :
    In c (Engine.newCandidates h o existing)
    <-> In c (Engine.filteredCandidates h o)
        /\ ~ In (Candidate.keyOf c) (map Conflict.keyOf existing).
  Proof.
    unfold Engine.newCandidates. rewrite filter_In, negb_true_iff.
    rewrite has_false_iff, ofList_elem, list_elem_of_In. tauto.
  Qed.

Lemma firstn_In {X : Type} (n : nat) (l : list X) (x : X) :
    In x (firstn n l) -> In x l.
  Proof.
    revert l. induction n as [|n IH]; intros [|y l]; cbn; try done.
    intros [->|H]; [by left|right; by apply IH].
  Qed.

Lemma filter_none {X : Type} (f : X -> bool) (l : list X) :
    (forall x, In x l -> f x = false) -> List.filter f l = [].
  Proof.
    induction l as [|x l IH]; intros H; [done|]. cbn.
    rewrite (H x) by (by left). apply IH. intros y Hy. apply H. by right.
  Qed.

  (** With a judge, a full scan appends to the ledger one fresh conflict
      for each of the first [cap] new candidates that the judge accepts. *)
Lemma runFullScan_spec (w : World) :
    Host.hasEnabledProvider h = true ->
    let r := Engine.runFullScan h o w in
    stored (snd r) = stored w ++ Engine.conflicts (fst r)
    /\ Engine.verified (fst r) = length (Engine.conflicts (fst r))
    /\ Forall fresh (Engine.conflicts (fst r))
    /\ map Conflict.keyOf (Engine.conflicts (fst r))
       = map Candidate.keyOf
           (List.filter (accepts h)
              (firstn (Verify.capOf (Engine.maxCandidates o))
                      (Engine.newCandidates h o (stored w)))).
  Proof.
    intros Hp. unfold Engine.runFullScan.
    destruct (length (Engine.filteredCandidates h o) =? 0) eqn:EF.
    - apply Nat.eqb_eq in EF. cbn. rewrite app_nil_r.
      unfold Engine.newCandidates.
      destruct (Engine.filteredCandidates h o); [|done].
      cbn. by rewrite firstn_nil.
    - cbv [bind Ledger.getAllConflicts].
      destruct (length (Engine.newCandidates h o (stored w)) =? 0) eqn:EN.
      + apply Nat.eqb_eq in EN. cbn. rewrite app_nil_r.
        destruct (Engine.newCandidates h o (stored w)); [|done].
        cbn. by rewrite firstn_nil.
      + rewrite Hp.
        pose proof (verifyConflicts_spec h
                      (Engine.newCandidates h o (stored w))
                      (Some (match Engine.maxCandidates o with
                             | Some n => n | None => 20 end)) w) as Hv.
        cbn zeta in Hv. rewrite Hp, capOf_default in Hv.
        destruct (Verify.verifyConflicts h _ _ w) as [vs w1].
        destruct Hv as (Hs & Hf & Hk). cbn [fst snd] in *.
        pose proof (forEachM_save vs w1) as Hsave.
        destruct (forEachM Ledger.saveConflict vs w1) as [u w2].
        cbn [fst snd] in *. subst w2. cbn. rewrite Hs. by repeat split.
  Qed.
End ScanFacts.

(** C1, as the code has it. When the judge is available and answers a
    candidate the same way in both runs, and the first run has no more
    new candidates than the cap on verification, the second of two full
    scans over the same store persists nothing: each of its new
    candidates was rejected by the judge in the first run and is
    rejected again. Candidates whose key is in the ledger are left out
    before verification. *)
Theorem second_scan_verifies_nothing (h : Host.t) (o : Engine.ScanOptions)
        (w : World) :
  Host.hasEnabledProvider h = true ->
  length (Engine.newCandidates h o (stored w))
  <= Verify.capOf (Engine.maxCandidates o) ->
  let first := Engine.runFullScan h o w in
  let second := Engine.runFullScan h o (snd first) in
  Engine.verified (fst second) = 0
  /\ Engine.conflicts (fst second) = []
  /\ stored (snd second) = stored (snd first)
  /\ (forall c, In c (Engine.newCandidates h o (stored (snd first))) ->
                ~ In (Candidate.keyOf c)
                     (map Conflict.keyOf (stored (snd first)))
                /\ Props.accepts h c = false).
Proof.
  intros Hp Hcap first second.
  destruct (runFullScan_spec h o w Hp) as (Hs1 & _ & _ & Hk1).
  fold first in Hs1, Hk1.
  rewrite firstn_all2 in Hk1 by exact Hcap.
  assert (Hrej : forall c,
             In c (Engine.newCandidates h o (stored (snd first))) ->
             ~ In (Candidate.keyOf c) (map Conflict.keyOf (stored (snd first)))
             /\ Props.accepts h c = false).
  { intros c Hc. apply newCandidates_In in Hc as [HF Hnew].
    split; [exact Hnew|].
    rewrite Hs1, map_app, in_app_iff in Hnew.
    destruct (Props.accepts h c) eqn:E; [|done].
    exfalso. apply Hnew. right. rewrite Hk1. apply in_map.
    apply filter_In. split; [|done].
    apply newCandidates_In. split; [done|]. tauto. }
  destruct (runFullScan_spec h o (snd first) Hp) as (Hs2 & Hv2 & _ & Hk2).
  fold second in Hs2, Hv2, Hk2.
  rewrite filter_none in Hk2.
  - destruct (Engine.conflicts (fst second)); [|done].
    rewrite Hs2, Hv2, app_nil_r. cbn [length].
    split; [done|]. split; [done|]. split; [done|]. exact Hrej.
  - intros c Hc. apply Hrej. by apply firstn_In in Hc.
Qed.

Lemma second_scan_verifies_nothing_witness :
  Host.hasEnabledProvider SampleHosts.apiHost = true
  /\ length (Engine.newCandidates SampleHosts.apiHost SampleHosts.defaults [])
     <= Verify.capOf (Engine.maxCandidates SampleHosts.defaults)
  /\ Engine.verified
       (fst (Engine.runFullScan SampleHosts.apiHost SampleHosts.defaults
                                SampleHosts.emptyWorld)) = 2
  /\ Engine.verified
       (fst (Engine.runFullScan
               SampleHosts.apiHost SampleHosts.defaults
               (snd (Engine.runFullScan SampleHosts.apiHost SampleHosts.defaults
                                        SampleHosts.emptyWorld)))) = 0.
Proof.
  assert (Hp : Host.hasEnabledProvider SampleHosts.apiHost = true) by done.
  assert (Hcap : length (Engine.newCandidates SampleHosts.apiHost
                                              SampleHosts.defaults [])
                 <= Verify.capOf (Engine.maxCandidates SampleHosts.defaults))
    by (vm_compute; lia).
  split; [exact Hp|]. split; [exact Hcap|]. split; [by vm_compute|].
  exact (proj1 (second_scan_verifies_nothing
                  SampleHosts.apiHost SampleHosts.defaults
                  SampleHosts.emptyWorld Hp Hcap)).
Defined.

(** C1 as stated fails: with a judge that confirms every candidate, the
    second of two scans in a row still persists a conflict when the first
    one stopped at the cap, both for a cap of one with two candidates and
    for the default cap of twenty with twenty-one candidates. *)
Lemma second_scan_counterexample :
  let scanTwice h o :=
    let first := Engine.runFullScan h o SampleHosts.emptyWorld in
    let second := Engine.runFullScan h o (snd first) in
    (Engine.found (fst first), Engine.verified (fst first),
     Engine.verified (fst second)) in
  Host.hasEnabledProvider SampleHosts.apiHost = true
  /\ scanTwice SampleHosts.apiHost SampleHosts.oneAtATime = (2, 1, 1)
  /\ Host.hasEnabledProvider SampleHosts.busyHost = true
  /\ scanTwice SampleHosts.busyHost SampleHosts.defaults = (21, 20, 1).
Proof.
  intros scanTwice.
  split; [reflexivity|]. split; [by vm_compute|].
  split; [reflexivity|]. by vm_compute.
Qed.

(** ** Single summary check *)

(** C2, at the inputs that break it. A new summary dated before the
    existing summary of its topic, or compared with an existing summary
    whose timestamp does not parse, is handed to the matchers as the
    older side: every candidate, and every conflict stored from it, has
    the new summary's id as [olderSummaryId]. *)
Theorem new_summary_is_placed_by_timestamp :
  let sides := map (fun c => (Candidate.olderSummaryId c,
                              Candidate.newerSummaryId c)) in
  let judged := SampleHosts.host
                  [SampleHosts.existingSwitch; SampleHosts.lateArrival] true
                  (fun _ => Some SampleHosts.confirming) in
  Engine.comparablesOf SampleHosts.lateArrival
                       [SampleHosts.existingSwitch; SampleHosts.lateArrival]
  = [SampleHosts.existingSwitch]
  /\ sides (Engine.newSummaryCandidates SampleHosts.lateArrival
                                        [SampleHosts.existingSwitch])
     = [("new", "existing"); ("new", "existing")]
  /\ sides (Engine.newSummaryCandidates SampleHosts.datedArrival
                                        [SampleHosts.undatedSwitch])
     = [("new", "existing"); ("new", "existing")]
  /\ map (fun c => (Conflict.olderSummaryId c, Conflict.newerSummaryId c))
         (stored (snd (Engine.checkNewSummary judged SampleHosts.lateArrival
                                              true SampleHosts.emptyWorld)))
     = [("new", "existing"); ("new", "existing")].
Proof.
  intros sides judged.
  split; [by vm_compute|]. split; [by vm_compute|].
  split; by vm_compute.
Qed.

(** ** The ledger *)

Section LedgerFacts.
  Import Props.

Lemma findIndex_Some {X : Type} (p : X -> bool) (l : list X) (i : nat) :
    Ledger.findIndex p l = Some i ->
    exists x, l !! i = Some x /\ p x = true
              /\ forall j y, j < i -> l !! j = Some y -> p y = false.
  Proof.
    revert i. induction l as [|x l IH]; intros i; cbn; [done|].
    destruct (p x) eqn:E.
    - intros [= <-]. exists x. repeat split; [done|]. intros; lia.
    - destruct (Ledger.findIndex p l) as [k|]; [|done].
      intros [= <-]. destruct (IH k eq_refl) as (y & Hy & Hp & Hfirst).
      exists y. repeat split; [done|done|].
      intros [|j] z Hj Hz; cbn in Hz; [by injection Hz as <-|].
      apply (Hfirst j z); [lia|done].
  Qed.

Lemma findIndex_found {X : Type} (p : X -> bool) (l : list X) (x : X) :
    In x l -> p x = true -> exists i, Ledger.findIndex p l = Some i.
  Proof.
    induction l as [|y l IH]; cbn; [done|].
    intros [->|Hin] Hp.
    - rewrite Hp. by exists 0.
    - destruct (p y); [by exists 0|].
      destruct (IH Hin Hp) as [i ->]. by exists (S i).
  Qed.

Lemma findIndex_None {X : Type} (p : X -> bool) (l : list X) :
    Ledger.findIndex p l = None -> forall x, In x l -> p x = false.
  Proof.
    induction l as [|y l IH]; cbn; [done|].
    destruct (p y) eqn:E; [done|].
    destruct (Ledger.findIndex p l); [done|].
    intros _ x [<-|Hin]; [done|]. by apply IH.
  Qed.

  (** What [updateConflict] does to the stored list. *)
Lemma updateConflict_cases (conflictId : string) (u : Conflict.Updates)
        (w : World) :
    (Ledger.updateConflict conflictId u w = (None, w)
     /\ forall c, In c (stored w) -> Conflict.id c <> conflictId)
    \/ exists i c,
        stored w !! i = Some c
        /\ Conflict.id c = conflictId
        /\ (forall j c', j < i -> stored w !! j = Some c' ->
                         Conflict.id c' <> conflictId)
        /\ Ledger.updateConflict conflictId u w
           = (Some (Conflict.merge c u),
              {| stored := <[i := Conflict.merge c u]> (stored w);
                 tick := tick w |}).
  Proof.
    unfold Ledger.updateConflict.
    destruct (Ledger.findIndex _ (stored w)) as [i|] eqn:E.
    - right. apply findIndex_Some in E as (c & Hc & Hid & Hfirst).
      exists i, c. rewrite Hc. apply String.eqb_eq in Hid.
      split; [done|]. split; [done|]. split; [|done].
      intros j c' Hj Hc'. apply String.eqb_neq. by apply (Hfirst j c').
    - left. split; [done|]. intros c Hc.
      apply String.eqb_neq. by apply (findIndex_None _ _ E).
  Qed.

Lemma fresh_invariant c : fresh c -> openImpliesUnresolved c.
  Proof. by intros (_ & ? & ?) _. Qed.

Lemma updateConflict_invariant (conflictId : string) (u : Conflict.Updates)
        (s : Conflict.Status) (w : World) :
    Conflict.setStatus u = Some s -> s <> Conflict.open ->
    ledgerInvariant w ->
    ledgerInvariant (snd (Ledger.updateConflict conflictId u w)).
  Proof.
    intros Hu Hs Hinv.
    destruct (updateConflict_cases conflictId u w)
      as [[-> _]|(i & c & _ & _ & _ & ->)]; [done|].
    unfold ledgerInvariant. cbn. apply Forall_insert; [done|].
    intros Hopen. cbn in Hopen. rewrite Hu in Hopen. congruence.
  Qed.

Lemma resolveConflict_invariant h i r n w :
    ledgerInvariant w -> ledgerInvariant (snd (Ledger.resolveConflict h i r n w)).
  Proof.
    intros Hinv. unfold Ledger.resolveConflict.
    destruct (_ || _); [done|]. destruct (negb _); [done|].
    cbv [bind Ledger.nowISO].
    by apply (updateConflict_invariant _ _ Conflict.resolved).
  Qed.

Lemma dismissConflict_invariant h i w :
    ledgerInvariant w -> ledgerInvariant (snd (Ledger.dismissConflict h i w)).
  Proof.
    intros Hinv. unfold Ledger.dismissConflict.
    destruct (String.eqb i ""); [done|].
    cbv [bind Ledger.nowISO].
    by apply (updateConflict_invariant _ _ Conflict.dismissed).
  Qed.

Lemma appended_invariant (w : World) (cs : list Conflict.t) (t : nat) :
    ledgerInvariant w -> Forall fresh cs ->
    ledgerInvariant {| stored := stored w ++ cs; tick := t |}.
  Proof.
    intros Hinv Hf. unfold ledgerInvariant. cbn. apply Forall_app. split; [done|].
    eapply Forall_impl; [exact Hf|]. apply fresh_invariant.
  Qed.

  (** Both creation paths of a call give fresh records and leave the
      stored list alone until the records are saved. *)
Lemma created_fresh h (judge : bool) (cs : list Candidate.t)
        (cap : option nat) (w : World) :
    let r := (if judge then Verify.verifyConflicts h cs cap
              else Engine.heuristicOnly h cs) w in
    stored (snd r) = stored w /\ Forall fresh (fst r).
  Proof.
    destruct judge; cbn zeta.
    - by destruct (verifyConflicts_spec h cs cap w) as (? & ? & _).
    - apply heuristicOnly_spec.
  Qed.

Lemma saved_invariant h (judge : bool) (cs : list Candidate.t)
        (cap : option nat) (w : World) {X : Type}
        (k : list Conflict.t -> X) :
    ledgerInvariant w ->
    ledgerInvariant
      (snd ((do conflicts <-
                (if judge then Verify.verifyConflicts h cs cap
                 else Engine.heuristicOnly h cs);
             do _ <- forEachM Ledger.saveConflict conflicts;
             ret (k conflicts)) w)).
  Proof.
    intros Hinv. cbv [bind ret].
    pose proof (created_fresh h judge cs cap w) as Hc. cbn zeta in Hc.
    destruct ((if judge then Verify.verifyConflicts h cs cap
               else Engine.heuristicOnly h cs) w) as [vs w1].
    destruct Hc as [Hs Hf]. cbn [fst snd] in *.
    pose proof (forEachM_save vs w1) as Hsave.
    destruct (forEachM Ledger.saveConflict vs w1) as [u w2].
    cbn [fst snd] in *. subst w2. rewrite Hs. by apply appended_invariant.
  Qed.

Lemma checkNewSummary_invariant h s useAI w :
    ledgerInvariant w -> ledgerInvariant (snd (Engine.checkNewSummary h s useAI w)).
  Proof.
    intros Hinv. unfold Engine.checkNewSummary.
    destruct (String.eqb (Summary.id s) ""); [done|].
    destruct (Host.dbGetAll h) as [[existing topics]|]; [|done].
    destruct (length existing =? 0); [done|].
    destruct (length (Engine.comparablesOf s existing) =? 0); [done|].
    destruct (length (Engine.newSummaryCandidates s _) =? 0); [done|].
    by apply (saved_invariant h _ _ (Some 10) w (fun cs => cs)).
  Qed.

Lemma runFullScan_invariant h o w :
    ledgerInvariant w -> ledgerInvariant (snd (Engine.runFullScan h o w)).
  Proof.
    intros Hinv. unfold Engine.runFullScan.
    destruct (length (Engine.filteredCandidates h o) =? 0); [done|].
    cbv [bind Ledger.getAllConflicts]. fold (@bind).
    destruct (length (Engine.newCandidates h o (stored w)) =? 0); [done|].
    by apply (saved_invariant
                h _ _ _ w
                (fun cs => {| Engine.found := length (Engine.filteredCandidates h o);
                              Engine.verified := length cs;
                              Engine.conflicts := cs |})).
  Qed.

Lemma perform_invariant h c w :
    ledgerInvariant w -> ledgerInvariant (Engine.perform h c w).
  Proof.
    destruct c; cbn.
    - apply checkNewSummary_invariant.
    - apply runFullScan_invariant.
    - apply resolveConflict_invariant.
    - apply dismissConflict_invariant.
  Qed.
End LedgerFacts.

(** C8. Conflicts are created open with [resolvedAt] and [resolution]
    null by the judged path and by the heuristic-only path of both
    callers; [resolveConflict] and [dismissConflict], the only writers
    of the two fields, move the status out of [open]; hence every
    record of a ledger reached by calls of the engine from a ledger that
    satisfies the invariant is unresolved while it is open. *)
Theorem open_conflicts_stay_unresolved :
  (forall h c w conflict,
      fst (Verify.verifySingleCandidate h c w) = Some conflict ->
      Props.fresh conflict)
  /\ (forall h c w, Props.fresh (fst (Engine.heuristicConflict h c w)))
  /\ (forall h i r n w conflict,
        fst (Ledger.resolveConflict h i r n w) = Some conflict ->
        Conflict.status conflict = Conflict.resolved)
  /\ (forall h i w conflict,
        fst (Ledger.dismissConflict h i w) = Some conflict ->
        Conflict.status conflict = Conflict.dismissed)
  /\ (forall w0 w,
        Props.ledgerInvariant w0 -> Engine.reachable w0 w ->
        Props.ledgerInvariant w).
Proof.
  split; [|split; [|split; [|split]]].
  - intros h c w conflict H.
    destruct (verifySingleCandidate_cases h c w)
      as [[_ E]|[_ (c' & E & _ & Hf)]]; rewrite E in H; [done|].
    by injection H as <-.
  - intros h c w.
    by destruct (heuristicConflict_spec h c w) as (c' & -> & _ & Hf).
  - intros h i r n w conflict. unfold Ledger.resolveConflict.
    destruct (_ || _); [done|]. destruct (negb _); [done|].
    cbv [bind Ledger.nowISO].
    match goal with
    | |- context [Ledger.updateConflict ?a ?u ?w'] =>
        destruct (updateConflict_cases a u w')
          as [[-> _]|(k & c & _ & _ & _ & ->)]
    end; [done|]. by intros [= <-].
  - intros h i w conflict. unfold Ledger.dismissConflict.
    destruct (String.eqb i ""); [done|].
    cbv [bind Ledger.nowISO].
    match goal with
    | |- context [Ledger.updateConflict ?a ?u ?w'] =>
        destruct (updateConflict_cases a u w')
          as [[-> _]|(k & c & _ & _ & _ & ->)]
    end; [done|]. by intros [= <-].
  - intros w0 w Hinv Hreach. induction Hreach as [|w h c _ IH]; [done|].
    by apply perform_invariant.
Qed.

Lemma open_conflicts_stay_unresolved_witness :
  let w1 := Engine.perform SampleHosts.apiHost
                           (Engine.RunFullScan SampleHosts.defaults)
                           SampleHosts.emptyWorld in
  let w2 := Engine.perform SampleHosts.apiHost
                           (Engine.ResolveConflict "conflict-0" "keep_newer" "")
                           w1 in
  Props.ledgerInvariant SampleHosts.emptyWorld
  /\ Engine.reachable SampleHosts.emptyWorld w2
  /\ map Conflict.status (stored w2) = [Conflict.resolved; Conflict.open]
  /\ Props.ledgerInvariant w2.
Proof.
  intros w1 w2.
  assert (H0 : Props.ledgerInvariant SampleHosts.emptyWorld) by constructor.
  assert (Hr : Engine.reachable SampleHosts.emptyWorld w2)
    by (do 2 apply Engine.reach_call; apply Engine.reach_start).
  split; [exact H0|]. split; [exact Hr|]. split; [by vm_compute|].
  exact (proj2 (proj2 (proj2 (proj2 open_conflicts_stay_unresolved)))
               SampleHosts.emptyWorld w2 H0 Hr).
Defined.

(** C9. [resolveConflict] with a resolution outside the four valid ones
    returns null and leaves the world as it was. With a valid resolution
    and the non-empty id of a stored conflict, the first stored conflict
    of that id becomes [resolved] with the resolution, the note and the
    time of the call, in place; the call returns it and touches no other
    entry. *)
Theorem resolveConflict_validates (h : Host.t)
        (conflictId resolution note : string) (w : World) :
  (~ In resolution Ledger.validResolutions ->
   Ledger.resolveConflict h conflictId resolution note w = (None, w))
  /\ (In resolution Ledger.validResolutions ->
      conflictId <> "" ->
      (exists c, In c (stored w) /\ Conflict.id c = conflictId) ->
      exists i c,
        stored w !! i = Some c
        /\ Conflict.id c = conflictId
        /\ (forall j c', j < i -> stored w !! j = Some c' ->
                         Conflict.id c' <> conflictId)
        /\ let c' :=
             Conflict.merge c
               {| Conflict.setStatus := Some Conflict.resolved;
                  Conflict.setResolution := Some resolution;
                  Conflict.setResolutionNote := Some note;
                  Conflict.setResolvedAt := Some (Host.isoTime h (tick w)) |} in
           Ledger.resolveConflict h conflictId resolution note w
           = (Some c', {| stored := <[i := c']> (stored w);
                          tick := S (tick w) |})
           /\ Conflict.status c' = Conflict.resolved
           /\ Conflict.resolution c' = Some resolution
           /\ Conflict.resolutionNote c' = Some note
           /\ Conflict.resolvedAt c' = Some (Host.isoTime h (tick w))
           /\ Conflict.id c' = conflictId
           /\ (forall j, j <> i ->
                         <[i := c']> (stored w) !! j = stored w !! j)).
Proof.
  split.
  - intros Hbad. unfold Ledger.resolveConflict.
    destruct (_ || _); [done|].
    destruct (existsb (String.eqb resolution) Ledger.validResolutions) eqn:E;
      [|done].
    exfalso. apply Hbad. apply existsb_exists in E as (r & Hr & Heq).
    apply String.eqb_eq in Heq. by subst.
  - intros Hok Hid (c0 & Hin & Hc0). unfold Ledger.resolveConflict.
    assert (Hr : String.eqb resolution "" = false).
    { apply String.eqb_neq. intros ->.
      cbn in Hok. intuition discriminate. }
    apply String.eqb_neq in Hid. rewrite Hid, Hr. cbn [orb].
    assert (Hv : existsb (String.eqb resolution) Ledger.validResolutions = true).
    { apply existsb_exists. exists resolution. split; [done|].
      apply String.eqb_refl. }
    rewrite Hv. cbn [negb]. cbv [bind Ledger.nowISO].
    match goal with
    | |- context [Ledger.updateConflict ?a ?u ?w'] =>
        destruct (updateConflict_cases a u w')
          as [[_ Hnone]|(i & c & Hc & Hcid & Hfirst & ->)]
    end.
    + exfalso. by apply (Hnone c0).
    + exists i, c. cbn in Hc, Hfirst |- *.
      split; [done|]. split; [done|]. split; [done|].
      repeat split; try done.
      intros j Hj. by apply list_lookup_insert_ne.
Qed.

Lemma resolveConflict_validates_witness :
  let w1 := snd (Engine.runFullScan SampleHosts.apiHost SampleHosts.defaults
                                    SampleHosts.emptyWorld) in
  In "keep_both" Ledger.validResolutions
  /\ "conflict-2" <> ""
  /\ (exists c, In c (stored w1) /\ Conflict.id c = "conflict-2")
  /\ ~ In "bogus_value" Ledger.validResolutions
  /\ Ledger.resolveConflict SampleHosts.apiHost "conflict-2" "bogus_value" ""
                            w1 = (None, w1)
  /\ map Conflict.status
         (stored (snd (Ledger.resolveConflict SampleHosts.apiHost "conflict-2"
                                              "keep_both" "both hold" w1)))
     = [Conflict.open; Conflict.resolved]
  /\ exists i c,
       stored w1 !! i = Some c
       /\ fst (Ledger.resolveConflict SampleHosts.apiHost "conflict-2"
                                      "keep_both" "both hold" w1)
          = Some (Conflict.merge c
                    {| Conflict.setStatus := Some Conflict.resolved;
                       Conflict.setResolution := Some "keep_both";
                       Conflict.setResolutionNote := Some "both hold";
                       Conflict.setResolvedAt :=
                         Some (Host.isoTime SampleHosts.apiHost (tick w1)) |}).
Proof.
  intros w1.
  assert (Hok : In "keep_both" Ledger.validResolutions)
    by (cbn; tauto).
  assert (Hid : "conflict-2" <> "") by done.
  assert (Hex : exists c, In c (stored w1) /\ Conflict.id c = "conflict-2").
  { assert (E : existsb (fun c => String.eqb (Conflict.id c) "conflict-2")
                        (stored w1) = true) by (by vm_compute).
    apply existsb_exists in E as (c & Hc & Hid').
    exists c. split; [exact Hc|]. by apply String.eqb_eq. }
  assert (Hbad : ~ In "bogus_value" Ledger.validResolutions).
  { cbn. intuition discriminate. }
  split; [exact Hok|]. split; [exact Hid|]. split; [exact Hex|].
  split; [exact Hbad|]. split.
  - exact (proj1 (resolveConflict_validates
                    SampleHosts.apiHost "conflict-2" "bogus_value" "" w1) Hbad).
  - split; [by vm_compute|].
    destruct (proj2 (resolveConflict_validates
                       SampleHosts.apiHost "conflict-2" "keep_both" "both hold"
                       w1) Hok Hid Hex)
      as (i & c & Hc & _ & _ & Heq & _).
    exists i, c. split; [exact Hc|]. cbv zeta in Heq. by rewrite Heq.
Defined.

(** ** General helpers *)

Section UtilsFacts.
Import Utils Props2.

Lemma append_assoc (x y z : string) : (x +:+ y) +:+ z = x +:+ (y +:+ z).
Proof.
  induction x as [|a x IH]; [done|].
  change ((String a x +:+ y) +:+ z) with (String a ((x +:+ y) +:+ z)).
  by rewrite IH.
Qed.

Lemma allChars_app (p : ascii -> bool) (x y : string) :
  allChars p (x +:+ y) = allChars p x && allChars p y.
Proof.
  induction x as [|a x IH]; [done|].
  change (String a x +:+ y) with (String a (x +:+ y)).
  cbn [allChars]. by rewrite IH, andb_assoc.
Qed.

Lemma allChars_impl (p q : ascii -> bool) (s : string) :
  (forall c, p c = true -> q c = true) ->
  allChars p s = true -> allChars q s = true.
Proof.
  intros H. induction s as [|a s IH]; [done|]. cbn [allChars].
  rewrite !andb_true_iff. intros [Ha Hs]. split; [by apply H|by apply IH].
Qed.

Lemma replaceAll_app (c : ascii) (rep x y : string) :
  replaceAll c rep (x +:+ y) = replaceAll c rep x +:+ replaceAll c rep y.
Proof.
  induction x as [|a x IH]; [done|].
  change (String a x +:+ y) with (String a (x +:+ y)).
  cbn [replaceAll]. rewrite IH. destruct (Ascii.eqb a c); [|done].
  by rewrite append_assoc.
Qed.

Lemma escape_passes_char (a : ascii) :
  replaceAll "'"%char "&#39;"
    (replaceAll (ascii_of_nat 34) "&quot;"
       (replaceAll ">"%char "&gt;"
          (replaceAll "<"%char "&lt;"
             (replaceAll "&"%char "&amp;" (String a EmptyString)))))
  = escapeChar a.
Proof. destruct a as [[] [] [] [] [] [] [] []]; reflexivity. Qed.

Lemma escape_passes_cons (a : ascii) (x : string) :
  replaceAll "'"%char "&#39;"
    (replaceAll (ascii_of_nat 34) "&quot;"
       (replaceAll ">"%char "&gt;"
          (replaceAll "<"%char "&lt;"
             (replaceAll "&"%char "&amp;" (String a x)))))
  = escapeChar a
    +:+ replaceAll "'"%char "&#39;"
          (replaceAll (ascii_of_nat 34) "&quot;"
             (replaceAll ">"%char "&gt;"
                (replaceAll "<"%char "&lt;"
                   (replaceAll "&"%char "&amp;" x)))).
Proof.
  change (String a x) with (String a "" +:+ x).
  by rewrite !replaceAll_app, escape_passes_char.
Qed.

Lemma escapeChar_inert (a : ascii) : allChars isInertChar (escapeChar a) = true.
Proof. destruct a as [[] [] [] [] [] [] [] []]; reflexivity. Qed.

Lemma escapeEach_app (x y : string) :
  escapeEach (x +:+ y) = escapeEach x +:+ escapeEach y.
Proof.
  induction x as [|a x IH]; [done|].
  change (String a x +:+ y) with (String a (x +:+ y)).
  cbn [escapeEach]. by rewrite IH, append_assoc.
Qed.

Lemma substring_length_le (n : nat) (s : string) :
  String.length (String.substring 0 n s) <= n.
Proof.
  revert s. induction n as [|n IH]; intros [|a s]; cbn; try lia.
  specialize (IH s). lia.
Qed.

Lemma substring_allChars (p : ascii -> bool) (n : nat) (s : string) :
  allChars p s = true -> allChars p (String.substring 0 n s) = true.
Proof.
  revert s. induction n as [|n IH]; intros [|a s]; cbn; try done.
  rewrite !andb_true_iff. intros [Ha Hs]. split; [done|by apply IH].
Qed.

Lemma keepOnly_allChars (p : ascii -> bool) (s : string) :
  allChars p (keepOnly p s) = true.
Proof.
  induction s as [|a s IH]; [done|]. cbn [keepOnly].
  destruct (p a) eqn:E; [|done]. cbn [allChars]. by rewrite E, IH.
Qed.

Lemma trimStart_allChars (p : ascii -> bool) (s : string) :
  allChars p s = true -> allChars p (trimStart s) = true.
Proof.
  induction s as [|a s IH]; [done|]. cbn [trimStart].
  destruct (Text.isSpace a); [|done]. cbn [allChars].
  rewrite andb_true_iff. intros [_ Hs]. by apply IH.
Qed.

Lemma trimEnd_allChars (p : ascii -> bool) (s : string) :
  allChars p s = true -> allChars p (trimEnd s) = true.
Proof.
  induction s as [|a s IH]; [done|]. cbn [trimEnd allChars].
  rewrite andb_true_iff. intros [Ha Hs]. specialize (IH Hs).
  destruct (trimEnd s) as [|b r].
  - destruct (Text.isSpace a); [done|]. cbn. by rewrite Ha.
  - cbn [allChars] in *. by rewrite Ha, IH.
Qed.

Lemma underscoreRuns_safe (s : string) (inRun : bool) :
  allChars isFilenameChar s = true ->
  allChars isSafeChar (underscoreRuns s inRun) = true.
Proof.
  revert inRun. induction s as [|a s IH]; intros inRun; [done|].
  cbn [allChars underscoreRuns]. rewrite andb_true_iff. intros [Ha Hs].
  destruct (Text.isSpace a) eqn:E.
  - destruct inRun; [by apply IH|]. cbn [allChars]. by rewrite IH.
  - cbn [allChars]. rewrite IH by done. rewrite andb_true_r.
    unfold isFilenameChar in Ha. unfold isSafeChar.
    unfold Text.isSpace in E.
    destruct (Text.code a =? 32) eqn:E32;
      [by rewrite orb_true_r in E|].
    by rewrite orb_false_r in Ha.
Qed.
End UtilsFacts.

(** X1. [escapeHtml] replaces each character on its own: the five
    passes give the same string as one pass over the characters, so the
    escape of a concatenation is the concatenation of the escapes, and
    the result holds none of the characters [<], [>], double quote and
    apostrophe. *)
Theorem escapeHtml_characterwise (s t : string) :
  Utils.escapeHtml s = Props2.escapeEach s
  /\ Utils.escapeHtml (s +:+ t) = Utils.escapeHtml s +:+ Utils.escapeHtml t
  /\ Props2.allChars Props2.isInertChar (Utils.escapeHtml s) = true.
Proof.
  assert (Heach : forall x, Utils.escapeHtml x = Props2.escapeEach x).
  { intros x. unfold Utils.escapeHtml.
    destruct (String.eqb_spec x "") as [->|_]; [done|].
    induction x as [|a x IH]; [done|].
    cbn [Props2.escapeEach]. by rewrite escape_passes_cons, IH. }
  split; [apply Heach|]. split.
  - by rewrite !Heach, escapeEach_app.
  - rewrite Heach. induction s as [|a s IH]; [done|].
    cbn [Props2.escapeEach]. by rewrite allChars_app, escapeChar_inert, IH.
Qed.

(** X2. A sanitized file name has at most 80 characters, and each is a
    letter, a digit, an underscore or a hyphen. *)
Theorem sanitizeFilename_safe (name : string) :
  String.length (Utils.sanitizeFilename name) <= 80
  /\ Props2.allChars Props2.isSafeChar (Utils.sanitizeFilename name) = true.
Proof.
  unfold Utils.sanitizeFilename. split; [apply substring_length_le|].
  apply substring_allChars, underscoreRuns_safe.
  unfold Utils.trim. apply trimEnd_allChars, trimStart_allChars.
  apply keepOnly_allChars.
Qed.

(** X3. [estimateTokens] is the least number of four-character pieces
    that cover the text, and the estimate of a concatenation is at most
    the sum of the estimates. *)
Theorem estimateTokens_bounds (s t : string) :
  String.length s <= 4 * Utils.estimateTokens s
  /\ 4 * Utils.estimateTokens s < String.length s + 4
  /\ Utils.estimateTokens (s +:+ t)
     <= Utils.estimateTokens s + Utils.estimateTokens t.
Proof.
  unfold Utils.estimateTokens.
  assert (Hlen : String.length (s +:+ t) = String.length s + String.length t).
  { induction s as [|a s IH]; [done|].
    change (String a s +:+ t) with (String a (s +:+ t)). cbn. by rewrite IH. }
  rewrite Hlen.
  pose proof (Nat.div_mod_eq (String.length s + 3) 4).
  pose proof (Nat.mod_upper_bound (String.length s + 3) 4).
  pose proof (Nat.div_mod_eq (String.length t + 3) 4).
  pose proof (Nat.mod_upper_bound (String.length t + 3) 4).
  pose proof (Nat.div_mod_eq (String.length s + String.length t + 3) 4).
  pose proof (Nat.mod_upper_bound (String.length s + String.length t + 3) 4).
  lia.
Qed.

(** ** Tokens and tags *)

Section TokenFacts.
Import Text Props2.

Lemma blankOthers_chars (s : string) :
  allChars (fun c => isSplitSep c || isTokenChar c) (blankOthers s) = true.
Proof.
  unfold blankOthers. induction s as [|a s IH]; [done|].
  cbn [mapChars allChars]. rewrite IH, andb_true_r.
  destruct (keepChar a) eqn:E; [|done].
  unfold keepChar in E. unfold isSplitSep, isTokenChar.
  destruct (isLower a), (isDigit a), (code a =? 45); cbn in *;
    rewrite ?orb_true_r; done.
Qed.

Lemma splitAux_pieces (s cur : string) (prevSep : bool) (piece : string) :
  allChars (fun c => isSplitSep c || isTokenChar c) s = true ->
  allChars isTokenChar cur = true ->
  In piece (splitAux s cur prevSep) ->
  allChars isTokenChar piece = true.
Proof.
  revert cur prevSep. induction s as [|a s IH]; intros cur prevSep Hs Hcur.
  - cbn. by intros [<-|[]].
  - cbn [allChars] in Hs. apply andb_true_iff in Hs as [Ha Hs].
    cbn [splitAux]. destruct (isSplitSep a) eqn:E.
    + destruct prevSep.
      * by apply IH.
      * intros [<-|H]; [done|]. by apply (IH "" true).
    + apply IH; [done|]. rewrite allChars_app, Hcur. cbn.
      cbn in Ha. by rewrite Ha.
Qed.
End TokenFacts.

(** X4. The tokens of a text are pairwise different; each has at least
    two characters, all of them lower-case letters or digits, and is not
    a stopword. *)
Theorem tokenize_tokens (text token : string) :
  NoDup (Matcher.tokenize text)
  /\ (In token (Matcher.tokenize text) ->
      2 <= String.length token
      /\ Props2.allChars Props2.isTokenChar token = true
      /\ JsSet.has Patterns.STOPWORDS token = false).
Proof.
  unfold Matcher.tokenize.
  destruct (String.eqb text ""); [split; [constructor|done]|].
  split; [apply ofList_NoDup|].
  intros Hin. apply list_elem_of_In in Hin. apply (proj1 (ofList_elem _ _)) in Hin.
  apply list_elem_of_In in Hin.
  apply filter_In in Hin as [Hpiece Hkeep].
  apply andb_true_iff in Hkeep as [Hlen Hstop].
  apply Nat.leb_le in Hlen. apply negb_true_iff in Hstop.
  split; [done|]. split; [|done].
  apply (splitAux_pieces _ "" false token (blankOthers_chars _) eq_refl Hpiece).
Qed.

Lemma tokenize_tokens_witness :
  In "postgres" (Matcher.tokenize Samples.storesNewer)
  /\ 2 <= String.length "postgres"
  /\ Props2.allChars Props2.isTokenChar "postgres" = true
  /\ JsSet.has Patterns.STOPWORDS "postgres" = false.
Proof.
  assert (Hin : In "postgres" (Matcher.tokenize Samples.storesNewer)).
  { assert (E : existsb (String.eqb "postgres")
                        (Matcher.tokenize Samples.storesNewer) = true)
      by (by vm_compute).
    apply existsb_exists in E as (y & Hy & Heq).
    apply String.eqb_eq in Heq. by subst y. }
  split; [exact Hin|].
  exact (proj2 (tokenize_tokens Samples.storesNewer "postgres") Hin).
Defined.

Section TagFacts.
Import Text.

Lemma lowerChar_idempotent (c : ascii) : lowerChar (lowerChar c) = lowerChar c.
Proof. destruct c as [[] [] [] [] [] [] [] []]; reflexivity. Qed.

Lemma toLowerCase_idempotent (s : string) :
  toLowerCase (toLowerCase s) = toLowerCase s.
Proof.
  unfold toLowerCase. induction s as [|a s IH]; [done|].
  cbn [mapChars]. by rewrite lowerChar_idempotent, IH.
Qed.

Lemma countShared_comm (A B : list string) :
  NoDup A -> NoDup B -> Matcher.countShared A B = Matcher.countShared B A.
Proof.
  intros HA HB. rewrite !countShared_inter by done. f_equal. set_solver.
Qed.
End TagFacts.

(** X5. The overlap coefficient of two tag arrays lies between 0 and 1,
    is 0 when either array is empty, does not depend on the order of its
    arguments, and does not depend on the case of the tags. *)
Theorem tagOverlap_properties (tagsA tagsB : list string) :
  (0 <= Matcher.tagOverlap tagsA tagsB <= 1)%Q
  /\ (tagsA = [] \/ tagsB = [] -> Matcher.tagOverlap tagsA tagsB = 0%Q)
  /\ Matcher.tagOverlap tagsA tagsB = Matcher.tagOverlap tagsB tagsA
  /\ Matcher.tagOverlap (map Text.toLowerCase tagsA) (map Text.toLowerCase tagsB)
     = Matcher.tagOverlap tagsA tagsB.
Proof.
  assert (Hcomm : forall a b, Matcher.tagOverlap a b = Matcher.tagOverlap b a).
  { intros a b. unfold Matcher.tagOverlap. rewrite orb_comm.
    destruct (_ || _); [done|].
    rewrite (countShared_comm (JsSet.ofList (map Text.toLowerCase a)))
      by apply ofList_NoDup.
    by rewrite Nat.min_comm. }
  split; [|split; [|split]].
  - unfold Matcher.tagOverlap. destruct (_ || _); [done|].
    destruct (_ =? 0) eqn:E; [done|]. apply Nat.eqb_neq in E.
    apply ratio_bounds; [|lia].
    apply Nat.min_glb; [apply countShared_le|].
    rewrite countShared_comm by apply ofList_NoDup. apply countShared_le.
  - unfold Matcher.tagOverlap. intros [->| ->]; [done|].
    by rewrite orb_true_r.
  - apply Hcomm.
  - unfold Matcher.tagOverlap. rewrite !length_map, !map_map.
    rewrite !(map_ext _ _ toLowerCase_idempotent). done.
Qed.

Lemma tagOverlap_properties_witness :
  (([] : list string) = [] \/ ["React"] = [])
  /\ Matcher.tagOverlap [] ["React"] = 0%Q
  /\ (Matcher.tagOverlap ["React"; "hooks"] ["react"; "State"; "css"] == 1 # 2)%Q.
Proof.
  assert (H : ([] : list string) = [] \/ ["React"] = []) by (by left).
  split; [exact H|]. split.
  - exact (proj1 (proj2 (tagOverlap_properties [] ["React"])) H).
  - by vm_compute.
Defined.

(** ** Order and uniqueness of the candidates *)

Section SortFacts.
Import Discovery Props2 Props3.
Context {X : Type} (f : X -> X -> bool) (R : X -> X -> Prop) (P : X -> Prop).
Hypothesis f_true : forall a b, P a -> P b -> f a b = true -> R a b.
Hypothesis f_false : forall a b, P a -> P b -> f a b = false -> R b a.
Hypothesis R_trans : forall a b c, R a b -> R b c -> R a c.

Lemma insertSorted_perm (x : X) (l : list X) : insertSorted f x l ≡ₚ x :: l.
Proof.
  induction l as [|y l IH]; [done|]. cbn [insertSorted].
  destruct (f y x); [|done]. rewrite IH. apply Permutation_swap.
Qed.

Lemma stableSort_from_perm (l acc : list X) :
  fold_left (fun a x => insertSorted f x a) l acc ≡ₚ acc ++ l.
Proof.
  revert acc. induction l as [|x l IH]; intros acc; cbn [fold_left].
  - by rewrite app_nil_r.
  - rewrite IH, insertSorted_perm. cbn [app]. apply Permutation_middle.
Qed.

(** Sorting rearranges the list. *)
Lemma stableSort_perm (l : list X) : stableSort f l ≡ₚ l.
Proof. unfold stableSort. by rewrite stableSort_from_perm. Qed.

Lemma insertSorted_sorted (x : X) (l : list X) :
  P x -> Forall P l -> sortedBy R l -> sortedBy R (insertSorted f x l).
Proof.
  intros Hx. induction l as [|y l IH]; intros HP Hs; [by cbn|].
  apply Forall_cons in HP as [Hy HP]. destruct Hs as [Hyl Hs].
  cbn [insertSorted]. destruct (f y x) eqn:E.
  - cbn [sortedBy]. split; [|by apply IH].
    rewrite insertSorted_perm. constructor; [by apply f_true|done].
  - cbn [sortedBy]. split; [|done].
    assert (Hxy : R x y) by by apply f_false.
    constructor; [done|].
    eapply Forall_impl; [exact Hyl|]. intros z Hz. by apply (R_trans x y z).
Qed.

Lemma stableSort_from_sorted (l acc : list X) :
  Forall P l -> Forall P acc -> sortedBy R acc ->
  sortedBy R (fold_left (fun a x => insertSorted f x a) l acc).
Proof.
  revert acc. induction l as [|x l IH]; intros acc Hl Hacc Hs; [done|].
  apply Forall_cons in Hl as [Hx Hl]. cbn [fold_left].
  apply IH; [done| |by apply insertSorted_sorted].
  rewrite insertSorted_perm. by constructor.
Qed.

(** Sorting a list of elements on which the comparator is an order
    gives a sorted list. *)
Lemma stableSort_sorted (l : list X) :
  Forall P l -> sortedBy R (stableSort f l).
Proof.
  intros Hl. unfold stableSort. by apply stableSort_from_sorted.
Qed.

Lemma orderedPairs_sorted (l : list X) (a b : X) :
  sortedBy R l -> In (a, b) (orderedPairs l) -> R a b.
Proof.
  induction l as [|x l IH]; [done|]. intros [Hx Hs]. cbn [orderedPairs].
  rewrite in_app_iff, in_map_iff.
  intros [(y & [= -> ->] & Hy)|H]; [|by apply IH].
  rewrite Forall_forall in Hx. apply Hx. by apply list_elem_of_In.
Qed.
End SortFacts.

Section CandidateFacts.
Import Discovery Props Props2 Props3.

Lemma dedup_keys (seen : list string) (cs : list Candidate.t) :
  NoDup (map Candidate.keyOf (dedup seen cs))
  /\ forall c, In c (dedup seen cs) -> ~ In (Candidate.keyOf c) seen.
Proof.
  revert seen. induction cs as [|c cs IH]; intros seen.
  - split; [constructor|done].
  - cbn [dedup]. destruct (JsSet.has seen (Candidate.keyOf c)) eqn:E.
    + apply IH.
    + destruct (IH (JsSet.add seen (Candidate.keyOf c))) as [Hnd Hout].
      apply has_false_iff in E. split.
      * cbn [map]. apply NoDup_cons. split; [|done].
        intros Hin. apply list_elem_of_In, in_map_iff in Hin as (c' & Hk & Hc').
        apply (Hout c' Hc'). apply list_elem_of_In, add_elem. by right.
      * intros c' [<-|Hc'].
        -- intros H. apply E. by apply list_elem_of_In.
        -- intros H. apply (Hout c' Hc').
           apply list_elem_of_In, add_elem. left. by apply list_elem_of_In.
Qed.

Lemma compareSummaryLevel_scores (older newer : Summary.t)
      (c : Matcher.PairCandidate) :
  In c (Matcher.compareSummaryLevel older newer) ->
  (0.3 <= Matcher.score c <= 0.7)%Q
  /\ Matcher.signals c <> []
  /\ Matcher.olderContentType c = Matcher.summaryLevel
  /\ Matcher.newerContentType c = Matcher.summaryLevel.
Proof.
  unfold Matcher.compareSummaryLevel. cbv zeta.
  rewrite in_app_iff, in_flat_map. intros [(sw & _ & Hc)|Hc].
  - destruct (JsSet.has _ _); [|done]. destruct Hc as [<-|[]]. cbn.
    repeat split; try done; by unfold Qle.
  - destruct (Num.ltb 0.15 _); [|done].
    match type of Hc with
    | context [Matcher.findContradictoryAdjectives ?a ?b] =>
        set (l := Matcher.findContradictoryAdjectives a b) in *
    end.
    destruct (2 <=? length l) eqn:E; [|done].
    apply Nat.leb_le in E. destruct Hc as [<-|[]].
    cbn [Matcher.score Matcher.signals Matcher.olderContentType
         Matcher.newerContentType].
    split; [|split; [destruct l; [cbn in E; lia|done]|done]].
    pose proof (ofNat_le 2 (length l) E) as Hn.
    change (Num.ofNat 2) with (2 # 1)%Q in Hn.
    unfold Num.min. destruct (Qle_bool _ 0.7) eqn:Em.
    + apply Qle_bool_iff in Em. split; [lra|done].
    + split; by unfold Qle.
Qed.

Lemma candidatesOf_scores (older newer : Summary.t) (c : Candidate.t) :
  In c (candidatesOf Patterns.HEURISTIC_SCORE_THRESHOLD older newer) ->
  (0.3 <= Candidate.heuristicScore c <= 1)%Q /\ Candidate.signals c <> [].
Proof.
  unfold candidatesOf. rewrite in_map_iff.
  intros (p & <- & Hp). apply filter_In in Hp as [Hp Hthr]. cbn.
  apply Qle_bool_iff in Hthr. split; [split; [done|]|].
  - apply in_app_iff in Hp as [Hp|Hp].
    + apply compareDecisions_elem in Hp as (oi & ni & _ & _ & Hp).
      destruct (compareItems_cases oi (tokensOf (Matcher.text oi)) ni)
        as [E|(acc & E & _ & _)]; rewrite E in Hp; [done|].
      destruct Hp as [<-|[]]. cbn.
      apply Qle_trans with 1.0%Q; [apply min_le_r|by unfold Qle].
    + apply compareSummaryLevel_scores in Hp as [[_ Hle] _].
      apply Qle_trans with 0.7%Q; [done|by unfold Qle].
  - apply in_app_iff in Hp as [Hp|Hp].
    + apply compareDecisions_elem in Hp as (oi & ni & _ & _ & Hp).
      destruct (compareItems_cases oi (tokensOf (Matcher.text oi)) ni)
        as [E|(acc & E & Hne & _)]; rewrite E in Hp; [done|].
      by destruct Hp as [<-|[]].
    + by apply compareSummaryLevel_scores in Hp as (_ & Hne & _).
Qed.

Lemma byScoreDesc_true (a b : Candidate.t) :
  byScoreDesc a b = true -> byScore a b.
Proof. unfold byScoreDesc, byScore. apply Qle_bool_iff. Qed.

Lemma byScoreDesc_false (a b : Candidate.t) :
  byScoreDesc a b = false -> byScore b a.
Proof.
  unfold byScoreDesc, byScore. intros H.
  destruct (Qlt_le_dec (Candidate.heuristicScore a) (Candidate.heuristicScore b))
    as [Hlt|Hle]; [by apply Qlt_le_weak|].
  apply Qle_bool_iff in Hle. congruence.
Qed.
End CandidateFacts.

(** X6. The candidates that a corpus scan returns have pairwise
    different deduplication keys, come in order of falling heuristic
    score, and each has a score from 0.3 to 1 and at least one signal. *)
Theorem scanCorpus_result (summaries : list Summary.t)
        (topics : list Topic.t) :
  NoDup (map Candidate.keyOf (Discovery.scanCorpus summaries topics))
  /\ Props3.sortedBy Props2.byScore (Discovery.scanCorpus summaries topics)
  /\ Forall (fun c => (0.3 <= Candidate.heuristicScore c <= 1)%Q
                      /\ Candidate.signals c <> [])
            (Discovery.scanCorpus summaries topics).
Proof.
  unfold Discovery.scanCorpus.
  destruct (length summaries <? 2) eqn:E.
  - repeat split; constructor.
  - split; [|split].
    + rewrite (stableSort_perm Discovery.byScoreDesc). apply dedup_keys.
    + apply (stableSort_sorted Discovery.byScoreDesc Props2.byScore
                               (fun _ => True)).
      * intros a b _ _. apply byScoreDesc_true.
      * intros a b _ _. apply byScoreDesc_false.
      * intros a b c Hab Hbc. unfold Props2.byScore in *.
        by apply Qle_trans with (Candidate.heuristicScore b).
      * by apply Forall_forall.
    + apply List.Forall_forall. intros c Hc.
      apply stableSort_In, dedup_In in Hc.
      apply in_app_iff in Hc as [Hc|Hc];
        [apply intraTopic_pair in Hc|apply crossTopic_pair in Hc];
        destruct Hc as (older & newer & _ & _ & Hc);
        by apply candidatesOf_scores in Hc.
Qed.

(** X7. A candidate of the whole-summary comparison has a score from
    0.3 to 0.7, so it always reaches the heuristic threshold, and it
    carries at least one signal. *)
Theorem compareSummaryLevel_range (older newer : Summary.t) :
  Forall (fun c => (0.3 <= Matcher.score c <= 0.7)%Q
                   /\ Matcher.signals c <> []
                   /\ Qle_bool Patterns.HEURISTIC_SCORE_THRESHOLD
                               (Matcher.score c) = true)
         (Matcher.compareSummaryLevel older newer).
Proof.
  apply List.Forall_forall. intros c Hc.
  apply compareSummaryLevel_scores in Hc as ([Hlo Hhi] & Hne & _).
  repeat split; try done. by apply Qle_bool_iff.
Qed.

(** ** Older and newer *)

Section OrientationFacts.
Import Discovery Props Props2 Props3.

Lemma chronological_true (a b : Summary.t) :
  dated a -> dated b -> chronological a b = true -> notAfter a b.
Proof.
  unfold dated, chronological, notAfter.
  destruct (Summary.createdAt a), (Summary.createdAt b); try done.
  intros _ _. apply Z.leb_le.
Qed.

Lemma chronological_false (a b : Summary.t) :
  dated a -> dated b -> chronological a b = false -> notAfter b a.
Proof.
  unfold dated, chronological, notAfter.
  destruct (Summary.createdAt a), (Summary.createdAt b); try done.
  intros _ _ H. apply Z.leb_gt in H. lia.
Qed.

Lemma notAfter_trans (a b c : Summary.t) :
  notAfter a b -> notAfter b c -> notAfter a c.
Proof.
  unfold notAfter.
  destruct (Summary.createdAt a), (Summary.createdAt b),
    (Summary.createdAt c); try done. lia.
Qed.

Lemma timeLe_sides (a b : Summary.t) :
  dated a -> dated b ->
  notAfter (if timeLe (Summary.createdAt a) (Summary.createdAt b) then a else b)
           (if timeLe (Summary.createdAt a) (Summary.createdAt b) then b else a).
Proof.
  unfold dated, notAfter, timeLe.
  destruct (Summary.createdAt a) as [x|] eqn:Ea,
    (Summary.createdAt b) as [y|] eqn:Eb; try done.
  intros _ _. destruct (x <=? y)%Z eqn:E.
  - rewrite Ea, Eb. by apply Z.leb_le.
  - rewrite Ea, Eb. apply Z.leb_gt in E. lia.
Qed.

Lemma sortGroups_member (m : Groups) (k : string) (g : list Summary.t) :
  In (k, g) (sortGroups m) ->
  exists g0, In (k, g0) m /\ g = stableSort chronological g0.
Proof.
  unfold sortGroups. rewrite in_map_iff.
  intros ([k' g'] & [= <- <-] & Hin). eauto.
Qed.

(** In both passes the side called older is not dated after the side
    called newer, when the timestamps of the store parse. *)
Lemma intraTopic_oriented (m : Groups) (c : Candidate.t) :
  (forall s, grouped m s -> dated s) ->
  In c (intraTopic (sortGroups m)) ->
  exists older newer,
    grouped m older /\ grouped m newer /\ notAfter older newer
    /\ In c (candidatesOf Patterns.HEURISTIC_SCORE_THRESHOLD older newer).
Proof.
  intros Hd. unfold intraTopic. rewrite in_flat_map.
  intros ([k g] & Hg & Hc).
  apply in_flat_map in Hc as ([older newer] & Hp & Hc).
  apply sortGroups_member in Hg as (g0 & Hg0 & ->).
  assert (Hs : sortedBy notAfter (stableSort chronological g0)).
  { apply (stableSort_sorted chronological notAfter dated).
    - apply chronological_true.
    - apply chronological_false.
    - apply notAfter_trans.
    - apply List.Forall_forall. intros s Hs. apply Hd. by exists k, g0. }
  pose proof (orderedPairs_sorted notAfter _ _ _ Hs Hp) as Hord.
  apply orderedPairs_In in Hp as [Ho Hn].
  apply stableSort_In in Ho, Hn.
  exists older, newer. repeat split; try done; by exists k, g0.
Qed.

Lemma crossTopic_oriented (topics : list Topic.t) (m : Groups)
      (c : Candidate.t) :
  (forall s, grouped m s -> dated s) ->
  In c (crossTopic topics m) ->
  exists older newer,
    grouped m older /\ grouped m newer /\ notAfter older newer
    /\ In c (candidatesOf Patterns.HEURISTIC_SCORE_THRESHOLD older newer).
Proof.
  intros Hd. unfold crossTopic. rewrite in_flat_map.
  intros ([[idA groupA] [idB groupB]] & Hp & Hc).
  apply orderedPairs_In in Hp as [HA HB].
  destruct (topicGet topics idA); [|done].
  destruct (topicGet topics idB); [|done].
  destruct (Qle_bool _ 0.5); [done|].
  apply in_flat_map in Hc as (sA & HsA & Hc).
  apply in_flat_map in Hc as (sB & HsB & Hc).
  assert (HgA : grouped m sA) by by exists idA, groupA.
  assert (HgB : grouped m sB) by by exists idB, groupB.
  pose proof (timeLe_sides sA sB (Hd _ HgA) (Hd _ HgB)) as Hord.
  destruct (timeLe (Summary.createdAt sA) (Summary.createdAt sB)).
  - exists sA, sB. by repeat split.
  - exists sB, sA. by repeat split.
Qed.
End OrientationFacts.

(** X8. When every summary of the store has a timestamp that parses,
    each candidate of a corpus scan is built from two summaries of the
    store of which the one recorded as older is not dated after the one
    recorded as newer. *)
Theorem candidates_are_chronological (summaries : list Summary.t)
        (topics : list Topic.t) (c : Candidate.t) :
  (forall s, In s summaries -> Props2.dated s) ->
  In c (Discovery.scanCorpus summaries topics) ->
  exists older newer,
    In older summaries /\ In newer summaries
    /\ Candidate.olderSummaryId c = Summary.id older
    /\ Candidate.newerSummaryId c = Summary.id newer
    /\ Props2.notAfter older newer.
Proof.
  intros Hd. unfold Discovery.scanCorpus.
  destruct (length summaries <? 2); [done|].
  rewrite stableSort_In. intros Hc. apply dedup_In in Hc.
  assert (Hg : forall s, Props.grouped (Discovery.groupByTopic summaries) s ->
                         Props2.dated s).
  { intros s Hs. apply Hd. by apply groupByTopic_grouped in Hs as [? _]. }
  apply in_app_iff in Hc as [Hc|Hc].
  - apply (intraTopic_oriented _ _ Hg) in Hc
      as (older & newer & Ho & Hn & Hord & Hc).
    apply groupByTopic_grouped in Ho as [Ho _].
    apply groupByTopic_grouped in Hn as [Hn _].
    apply candidatesOf_fields in Hc as (H1 & H2 & _).
    by exists older, newer.
  - assert (Hg' : forall s,
               Props.grouped
                 (Discovery.sortGroups (Discovery.groupByTopic summaries)) s ->
               Props2.dated s).
    { intros s Hs. by apply Hg, sortGroups_grouped. }
    apply (crossTopic_oriented _ _ _ Hg') in Hc
      as (older & newer & Ho & Hn & Hord & Hc).
    apply sortGroups_grouped, groupByTopic_grouped in Ho as [Ho _].
    apply sortGroups_grouped, groupByTopic_grouped in Hn as [Hn _].
    apply candidatesOf_fields in Hc as (H1 & H2 & _).
    by exists older, newer.
Qed.

Lemma candidates_are_chronological_witness :
  let summaries := [Samples.apiNewer; Samples.apiOlder] in
  (forall s, In s summaries -> Props2.dated s)
  /\ exists c older newer,
      In c (Discovery.scanCorpus summaries [])
      /\ Candidate.olderSummaryId c = Summary.id older
      /\ Candidate.newerSummaryId c = Summary.id newer
      /\ Props2.notAfter older newer.
Proof.
  intros summaries.
  assert (Hd : forall s, In s summaries -> Props2.dated s).
  { intros s [<-|[<-|[]]]; done. }
  split; [exact Hd|].
  assert (E : exists c rest, Discovery.scanCorpus summaries [] = c :: rest)
    by (vm_compute; eauto).
  destruct E as (c & rest & E). exists c.
  assert (Hin : In c (Discovery.scanCorpus summaries []))
    by (rewrite E; by left).
  destruct (candidates_are_chronological summaries [] c Hd Hin)
    as (older & newer & _ & _ & H1 & H2 & H3).
  exists older, newer.
  split; [exact Hin|]. split; [exact H1|]. split; [exact H2|exact H3].
Defined.

(** ** Accounting of verification and scans *)

Section AccountingFacts.
Import Props Props4.
Variable h : Host.t.

Lemma NoDup_map_filter {X Y : Type} (f : X -> Y) (p : X -> bool)
      (l : list X) :
  NoDup (map f l) -> NoDup (map f (List.filter p l)).
Proof.
  induction l as [|x l IH]; [done|]. cbn [map List.filter].
  rewrite NoDup_cons. intros [Hx Hl]. destruct (p x); [|by apply IH].
  cbn [map]. apply NoDup_cons. split; [|by apply IH].
  intros Hin. apply Hx. apply list_elem_of_In in Hin.
  apply in_map_iff in Hin as (y & <- & Hy). apply filter_In in Hy as [Hy _].
  apply list_elem_of_In. by apply in_map.
Qed.

Lemma NoDup_map_firstn {X Y : Type} (f : X -> Y) (n : nat) (l : list X) :
  NoDup (map f l) -> NoDup (map f (firstn n l)).
Proof.
  revert l. induction n as [|n IH]; intros [|x l]; cbn; try constructor.
  - intros Hin. apply NoDup_cons in H as [Hx _]. apply Hx.
    apply list_elem_of_In in Hin. apply in_map_iff in Hin as (y & <- & Hy).
    apply firstn_In in Hy. apply list_elem_of_In. by apply in_map.
  - apply IH. by apply NoDup_cons in H as [_ ?].
Qed.

Lemma filter_length_le {X : Type} (p : X -> bool) (l : list X) :
  length (List.filter p l) <= length l.
Proof.
  induction l as [|x l IH]; [done|]. cbn. destruct (p x); cbn; lia.
Qed.

Lemma heuristicOnly_keys (candidates : list Candidate.t) (w : World) :
  map Conflict.keyOf (fst (Engine.heuristicOnly h candidates w))
  = map Candidate.keyOf
      (List.filter (fun c => Qle_bool 0.5 (Candidate.heuristicScore c))
                   candidates).
Proof.
  unfold Engine.heuristicOnly.
  generalize (List.filter
                (fun c => Qle_bool 0.5 (Candidate.heuristicScore c))
                candidates) as l.
  intros l. revert w. induction l as [|c l IH]; intros w; [done|].
  cbn [mapM]. cbv [bind ret].
  destruct (heuristicConflict_spec h c w) as (conflict & -> & Hk & _).
  specialize (IH {| stored := stored w; tick := S (S (tick w)) |}).
  destruct (mapM (Engine.heuristicConflict h) l _) as [ys w'].
  cbn in *. by rewrite Hk, IH.
Qed.

(** What a full scan does to the ledger, with or without a judge. *)
Lemma runFullScan_general (o : Engine.ScanOptions) (w : World) :
  let r := Engine.runFullScan h o w in
  stored (snd r) = stored w ++ Engine.conflicts (fst r)
  /\ Engine.verified (fst r) = length (Engine.conflicts (fst r))
  /\ Forall fresh (Engine.conflicts (fst r))
  /\ map Conflict.keyOf (Engine.conflicts (fst r))
     = map Candidate.keyOf (selected h o (stored w))
  /\ (Engine.found (fst r) = length (Engine.filteredCandidates h o)
      \/ Engine.conflicts (fst r) = []).
Proof.
  unfold Engine.runFullScan, selected.
  destruct (length (Engine.filteredCandidates h o) =? 0) eqn:EF.
  - apply Nat.eqb_eq in EF. cbn. rewrite app_nil_r.
    unfold Engine.newCandidates.
    destruct (Engine.filteredCandidates h o); [|done].
    cbn. rewrite firstn_nil.
    split; [done|]. split; [done|]. split; [constructor|].
    split; [by destruct (Host.hasEnabledProvider h)|by right].
  - cbv [bind Ledger.getAllConflicts].
    destruct (length (Engine.newCandidates h o (stored w)) =? 0) eqn:EN.
    + apply Nat.eqb_eq in EN. cbn. rewrite app_nil_r.
      destruct (Engine.newCandidates h o (stored w)); [|done].
      cbn. rewrite firstn_nil.
      split; [done|]. split; [done|]. split; [constructor|].
      split; [by destruct (Host.hasEnabledProvider h)|by left].
    + pose proof (created_fresh
                    h (Host.hasEnabledProvider h)
                    (Engine.newCandidates h o (stored w))
                    (Some (match Engine.maxCandidates o with
                           | Some n => n | None => 20 end)) w) as Hc.
      pose proof (verifyConflicts_spec
                    h (Engine.newCandidates h o (stored w))
                    (Some (match Engine.maxCandidates o with
                           | Some n => n | None => 20 end)) w) as Hv.
      pose proof (heuristicOnly_keys (Engine.newCandidates h o (stored w)) w)
        as Hh.
      cbn zeta in Hc, Hv. rewrite capOf_default in Hv.
      destruct (Host.hasEnabledProvider h).
      * destruct (Verify.verifyConflicts h _ _ w) as [vs w1].
        destruct Hc as [Hs Hf]. destruct Hv as (_ & _ & Hk).
        cbn [fst snd] in *.
        pose proof (forEachM_save vs w1) as Hsave.
        destruct (forEachM Ledger.saveConflict vs w1) as [u w2].
        cbn [fst snd] in *. subst w2. cbn. rewrite Hs.
        split; [done|]. split; [done|]. split; [done|].
        split; [done|by left].
      * destruct (Engine.heuristicOnly h _ w) as [vs w1].
        destruct Hc as [Hs Hf]. cbn [fst snd] in *.
        pose proof (forEachM_save vs w1) as Hsave.
        destruct (forEachM Ledger.saveConflict vs w1) as [u w2].
        cbn [fst snd] in *. subst w2. cbn. rewrite Hs.
        split; [done|]. split; [done|]. split; [done|].
        split; [done|by left].
Qed.

Lemma scanCorpus_keys (summaries : list Summary.t) (topics : list Topic.t) :
  NoDup (map Candidate.keyOf (Discovery.scanCorpus summaries topics)).
Proof.
  unfold Discovery.scanCorpus. destruct (length summaries <? 2); [constructor|].
  rewrite (stableSort_perm Discovery.byScoreDesc). apply dedup_keys.
Qed.

Lemma newCandidates_keys (o : Engine.ScanOptions)
      (existing : list Conflict.t) :
  NoDup (map Candidate.keyOf (Engine.newCandidates h o existing)).
Proof.
  unfold Engine.newCandidates, Engine.filteredCandidates,
    Engine.findCandidateConflicts.
  do 2 apply NoDup_map_filter.
  destruct (Host.dbGetAll h) as [[ss ts]|]; [apply scanCorpus_keys|constructor].
Qed.

Lemma selected_sub (o : Engine.ScanOptions) (existing : list Conflict.t)
      (c : Candidate.t) :
  In c (selected h o existing) -> In c (Engine.newCandidates h o existing).
Proof.
  unfold selected. destruct (Host.hasEnabledProvider h);
    rewrite filter_In; intros [H _]; [by apply firstn_In in H|done].
Qed.

Lemma selected_keys (o : Engine.ScanOptions) (existing : list Conflict.t) :
  NoDup (map Candidate.keyOf (selected h o existing)).
Proof.
  unfold selected. destruct (Host.hasEnabledProvider h).
  - apply NoDup_map_filter, NoDup_map_firstn, newCandidates_keys.
  - apply NoDup_map_filter, newCandidates_keys.
Qed.

Lemma selected_length (o : Engine.ScanOptions) (existing : list Conflict.t) :
  length (selected h o existing) <= length (Engine.filteredCandidates h o)
  /\ (Host.hasEnabledProvider h = true ->
      length (selected h o existing) <= Verify.capOf (Engine.maxCandidates o)).
Proof.
  unfold selected.
  assert (Hn : length (Engine.newCandidates h o existing)
               <= length (Engine.filteredCandidates h o))
    by apply filter_length_le.
  destruct (Host.hasEnabledProvider h).
  - pose proof (filter_length_le (accepts h)
                  (firstn (Verify.capOf (Engine.maxCandidates o))
                          (Engine.newCandidates h o existing))) as Hf.
    rewrite length_firstn in Hf. split; [lia|]. intros _. lia.
  - split; [|done].
    pose proof (filter_length_le
                  (fun c => Qle_bool 0.5 (Candidate.heuristicScore c))
                  (Engine.newCandidates h o existing)). lia.
Qed.
End AccountingFacts.

(** X9. A full scan appends the conflicts it returns to the ledger and
    changes nothing else in it; [verified] is their number, which is at
    most the number of candidates found and, with a judge, at most the
    cap on verification. *)
Theorem runFullScan_accounting (h : Host.t) (o : Engine.ScanOptions)
        (w : World) :
  let r := Engine.runFullScan h o w in
  stored (snd r) = stored w ++ Engine.conflicts (fst r)
  /\ Engine.verified (fst r) = length (Engine.conflicts (fst r))
  /\ Engine.verified (fst r) <= Engine.found (fst r)
  /\ (Host.hasEnabledProvider h = true ->
      Engine.verified (fst r) <= Verify.capOf (Engine.maxCandidates o)).
Proof.
  intros r.
  destruct (runFullScan_general h o w) as (Hs & Hv & _ & Hk & Hfound).
  fold r in Hs, Hv, Hk, Hfound.
  assert (Hlen : length (Engine.conflicts (fst r))
                 = length (Props4.selected h o (stored w))).
  { by rewrite <- (length_map Conflict.keyOf), Hk, length_map. }
  destruct (selected_length h o (stored w)) as [Hle Hcap].
  split; [done|]. split; [done|]. split.
  - destruct Hfound as [-> | E]; [lia|].
    rewrite Hv, E. cbn. lia.
  - intros Hp. specialize (Hcap Hp). lia.
Qed.

Lemma runFullScan_accounting_witness :
  Host.hasEnabledProvider SampleHosts.busyHost = true
  /\ Engine.verified
       (fst (Engine.runFullScan SampleHosts.busyHost SampleHosts.defaults
                                SampleHosts.emptyWorld))
     <= Verify.capOf (Engine.maxCandidates SampleHosts.defaults).
Proof.
  assert (Hp : Host.hasEnabledProvider SampleHosts.busyHost = true) by done.
  split; [exact Hp|].
  exact (proj2 (proj2 (proj2 (runFullScan_accounting
                                SampleHosts.busyHost SampleHosts.defaults
                                SampleHosts.emptyWorld))) Hp).
Defined.

(** X10. A full scan keeps the deduplication keys of the ledger
    pairwise different: when no two stored conflicts share a key before
    the scan, none do after it. *)
Theorem runFullScan_keeps_keys_unique (h : Host.t) (o : Engine.ScanOptions)
        (w : World) :
  NoDup (map Conflict.keyOf (stored w)) ->
  NoDup (map Conflict.keyOf (stored (snd (Engine.runFullScan h o w)))).
Proof.
  intros Hnd.
  destruct (runFullScan_general h o w) as (-> & _ & _ & Hk & _).
  rewrite map_app, Hk. apply NoDup_app. split; [done|]. split.
  - intros k Hold Hnew. apply list_elem_of_In in Hold, Hnew.
    apply in_map_iff in Hnew as (c & <- & Hc).
    apply selected_sub, newCandidates_In in Hc as [_ Hfresh]. by apply Hfresh.
  - apply selected_keys.
Qed.

Lemma runFullScan_keeps_keys_unique_witness :
  NoDup (map Conflict.keyOf (stored SampleHosts.emptyWorld))
  /\ NoDup (map Conflict.keyOf
              (stored (snd (Engine.runFullScan
                              SampleHosts.apiHost SampleHosts.defaults
                              SampleHosts.emptyWorld)))).
Proof.
  assert (H0 : NoDup (map Conflict.keyOf (stored SampleHosts.emptyWorld)))
    by constructor.
  split; [exact H0|].
  exact (runFullScan_keeps_keys_unique SampleHosts.apiHost SampleHosts.defaults
                                       SampleHosts.emptyWorld H0).
Defined.

(** X11. [verifyConflicts] never touches the stored list and returns at
    most [maxCandidates] conflicts (20 when the option is absent or 0),
    one for each candidate among the first that many that the judge
    accepts, in the order of the candidates; without a provider it
    returns nothing and draws no identifier. *)
Theorem verifyConflicts_accounting (h : Host.t)
        (candidates : list Candidate.t) (maxCandidates : option nat)
        (w : World) :
  let r := Verify.verifyConflicts h candidates maxCandidates w in
  stored (snd r) = stored w
  /\ length (fst r) <= Nat.min (Verify.capOf maxCandidates) (length candidates)
  /\ map Conflict.keyOf (fst r)
     = (if Host.hasEnabledProvider h
        then map Candidate.keyOf
               (List.filter (Props.accepts h)
                  (firstn (Verify.capOf maxCandidates) candidates))
        else [])
  /\ (Host.hasEnabledProvider h = false -> r = ([], w)).
Proof.
  intros r. destruct (verifyConflicts_spec h candidates maxCandidates w)
    as (Hs & _ & Hk). fold r in Hs, Hk.
  split; [done|]. split; [|split; [done|]].
  - rewrite <- (length_map Conflict.keyOf), Hk.
    destruct (Host.hasEnabledProvider h); [|cbn; lia].
    rewrite length_map.
    pose proof (filter_length_le (Props.accepts h)
                  (firstn (Verify.capOf maxCandidates) candidates)) as Hf.
    by rewrite length_firstn in Hf.
  - intros Hp. subst r. unfold Verify.verifyConflicts. rewrite Hp.
    by destruct (length candidates =? 0).
Qed.

Lemma verifyConflicts_accounting_witness :
  let h := SampleHosts.host [] false (fun _ => None) in
  let cs := Engine.findCandidateConflicts SampleHosts.apiHost in
  Host.hasEnabledProvider h = false
  /\ Verify.verifyConflicts h cs None SampleHosts.emptyWorld
     = ([], SampleHosts.emptyWorld).
Proof.
  intros h cs.
  assert (Hp : Host.hasEnabledProvider h = false) by done.
  split; [exact Hp|].
  exact (proj2 (proj2 (proj2 (verifyConflicts_accounting
                                h cs None SampleHosts.emptyWorld))) Hp).
Defined.

(** The loop of [verifyConflicts] is [verifyBatch] run on the slices in
    turn. *)
Lemma verifyBatches_runBatches (h : Host.t) (toVerify : list Candidate.t)
      (starts : list nat) (verified : list Conflict.t) (w : World) :
  Verify.verifyBatches h toVerify starts verified w
  = Props4.runBatches h
      (map (fun i => Verify.slice i (i + Patterns.MAX_CONCURRENT_AI_REQUESTS)
                                  toVerify) starts)
      verified w.
Proof.
  revert verified w. induction starts as [|i starts IH]; intros verified w.
  - reflexivity.
  - cbn [Verify.verifyBatches Props4.runBatches map]. unfold bind.
    destruct (Verify.verifyBatch h _ w) as [found w']. apply IH.
Qed.

Lemma mapM_app {A B : Type} (f : A -> M B) (l1 l2 : list A) (w : World) :
  mapM f (l1 ++ l2) w
  = let '(ys1, w1) := mapM f l1 w in
    let '(ys2, w2) := mapM f l2 w1 in
    (ys1 ++ ys2, w2).
Proof.
  revert w. induction l1 as [|x l1 IH]; intros w.
  - cbn. by destruct (mapM f l2 w).
  - cbn [mapM app]. unfold bind, ret. destruct (f x w) as [y w0].
    rewrite IH. destruct (mapM f l1 w0) as [ys1 w1].
    by destruct (mapM f l2 w1).
Qed.

Lemma verifyBatch_app (h : Host.t) (b1 b2 : list Candidate.t) (w : World) :
  Verify.verifyBatch h (b1 ++ b2) w
  = let '(found1, w1) := Verify.verifyBatch h b1 w in
    let '(found2, w2) := Verify.verifyBatch h b2 w1 in
    (found1 ++ found2, w2).
Proof.
  unfold Verify.verifyBatch, bind, ret. rewrite mapM_app.
  destruct (mapM _ b1 w) as [ys1 w1]. destruct (mapM _ b2 w1) as [ys2 w2].
  by rewrite omap_app.
Qed.

(** Batches run in turn find what one pass over all their candidates
    finds. *)
Lemma runBatches_concat (h : Host.t) (batches : list (list Candidate.t))
      (verified : list Conflict.t) (w : World) :
  Props4.runBatches h batches verified w
  = let '(found, w') := Verify.verifyBatch h (concat batches) w in
    (verified ++ found, w').
Proof.
  revert verified w. induction batches as [|b batches IH]; intros verified w.
  - cbn. by rewrite app_nil_r.
  - cbn [Props4.runBatches concat]. unfold bind. rewrite verifyBatch_app.
    destruct (Verify.verifyBatch h b w) as [found1 w1]. rewrite IH.
    destruct (Verify.verifyBatch h (concat batches) w1) as [found2 w2].
    by rewrite app_assoc.
Qed.

(** X12. With a judge, [verifyConflicts] is [verifyBatch] run on the
    successive batches of the candidates to verify, one batch after the
    other. Each batch holds at least one and at most five candidates,
    put end to end the batches are the list of candidates to verify, and
    there are as many as the length divided by five, rounded up; so the
    outcome is that of judging each candidate to verify once, in order. *)
Theorem batches_partition (h : Host.t) (candidates : list Candidate.t)
        (maxCandidates : option nat) (w : World) :
  let toVerify := firstn (Verify.capOf maxCandidates) candidates in
  let batches := Props4.batchesOf toVerify in
  Forall (fun batch =>
            1 <= length batch <= Patterns.MAX_CONCURRENT_AI_REQUESTS) batches
  /\ concat batches = toVerify
  /\ length batches = Nat.div (length toVerify + 4) 5
  /\ (Host.hasEnabledProvider h = true ->
      Verify.verifyConflicts h candidates maxCandidates w
      = Props4.runBatches h batches [] w
      /\ Verify.verifyConflicts h candidates maxCandidates w
         = Verify.verifyBatch h toVerify w).
Proof.
  intros toVerify batches.
  assert (Hsize : Forall
            (fun batch =>
               1 <= length batch <= Patterns.MAX_CONCURRENT_AI_REQUESTS)
            batches).
  { subst batches. unfold Props4.batchesOf.
    apply List.Forall_forall. intros b Hb.
    apply in_map_iff in Hb as (i & <- & Hi). unfold Verify.slice.
    rewrite length_firstn, length_skipn.
    unfold Verify.strides in Hi. apply in_map_iff in Hi as (k & <- & Hk).
    apply in_seq in Hk. unfold Patterns.MAX_CONCURRENT_AI_REQUESTS in *.
    pose proof (Nat.div_mod_eq (length toVerify + 5 - 1) 5).
    pose proof (Nat.mod_upper_bound (length toVerify + 5 - 1) 5). lia. }
  assert (Hcat : concat batches = toVerify).
  { subst batches. unfold Props4.batchesOf.
    rewrite <- flat_map_concat_map. apply batches_cover. }
  assert (Hrun : Host.hasEnabledProvider h = true ->
                 Verify.verifyConflicts h candidates maxCandidates w
                 = Props4.runBatches h batches [] w).
  { intros Hp. unfold Verify.verifyConflicts. rewrite Hp. cbn [negb].
    destruct (Nat.eqb_spec (length candidates) 0) as [H0|_].
    - apply length_zero_iff_nil in H0. subst batches toVerify. rewrite H0.
      by rewrite firstn_nil.
    - apply verifyBatches_runBatches. }
  split; [exact Hsize|]. split; [exact Hcat|]. split.
  - subst batches. unfold Props4.batchesOf, Verify.strides.
    rewrite !length_map, length_seq.
    unfold Patterns.MAX_CONCURRENT_AI_REQUESTS. f_equal. lia.
  - intros Hp. split; [by apply Hrun|].
    rewrite (Hrun Hp), runBatches_concat, Hcat.
    by destruct (Verify.verifyBatch h toVerify w).
Qed.

Lemma batches_partition_witness :
  let h := SampleHosts.busyHost in
  let cs := Engine.findCandidateConflicts h in
  Host.hasEnabledProvider h = true
  /\ map (@length Candidate.t) (Props4.batchesOf (firstn 20 cs)) = [5; 5; 5; 5]
  /\ Verify.verifyConflicts h cs None SampleHosts.emptyWorld
     = Props4.runBatches h (Props4.batchesOf (firstn 20 cs)) []
                         SampleHosts.emptyWorld.
Proof.
  intros h cs.
  assert (Hp : Host.hasEnabledProvider h = true) by done.
  split; [exact Hp|]. split; [by vm_compute|].
  exact (proj1 (proj2 (proj2 (proj2 (batches_partition
                                       h cs None SampleHosts.emptyWorld)))
                      Hp)).
Defined.

(** ** More on the ledger *)

Section LifecycleFacts.
Import Props5.

Lemma sameEvidence_refl (c : Conflict.t) : sameEvidence c c.
Proof. by repeat split. Qed.

Lemma sameEvidence_merge (c : Conflict.t) (u : Conflict.Updates) :
  sameEvidence c (Conflict.merge c u).
Proof. by repeat split. Qed.

Lemma Forall2_insert_at {X : Type} (R : X -> X -> Prop) (l : list X)
      (i : nat) (x x' : X) :
  (forall y, R y y) -> l !! i = Some x -> R x x' ->
  Forall2 R l (<[i := x']> l).
Proof.
  intros Hrefl. revert i. induction l as [|y l IH]; intros i; [done|].
  destruct i as [|i]; cbn.
  - intros [= ->] Hx. constructor; [done|]. by apply Forall_Forall2_diag, Forall_forall.
  - intros Hi Hx. constructor; [done|]. by apply IH.
Qed.

Lemma updateConflict_evidence (conflictId : string) (u : Conflict.Updates)
      (w : World) :
  Forall2 sameEvidence (stored w)
          (stored (snd (Ledger.updateConflict conflictId u w))).
Proof.
  destruct (updateConflict_cases conflictId u w)
    as [[-> _]|(i & c & Hc & _ & _ & ->)]; cbn.
  - apply Forall_Forall2_diag, Forall_forall. intros; apply sameEvidence_refl.
  - apply (Forall2_insert_at sameEvidence _ i c);
      [apply sameEvidence_refl|done|apply sameEvidence_merge].
Qed.
End LifecycleFacts.

(** X13. [dismissConflict] with an empty id returns null and leaves the
    world as it was; with an id that no stored conflict has it returns
    null and leaves the stored list as it was; with the non-empty id of
    a stored conflict it marks the first stored conflict of that id
    [dismissed] and stamps [resolvedAt] with the time of the call, in
    place, leaving its resolution and resolution note as they were. *)
Theorem dismissConflict_spec (h : Host.t) (conflictId : string) (w : World) :
  (conflictId = "" -> Ledger.dismissConflict h conflictId w = (None, w))
  /\ ((forall c, In c (stored w) -> Conflict.id c <> conflictId) ->
      fst (Ledger.dismissConflict h conflictId w) = None
      /\ stored (snd (Ledger.dismissConflict h conflictId w)) = stored w)
  /\ (conflictId <> "" ->
      (exists c, In c (stored w) /\ Conflict.id c = conflictId) ->
      exists i c c',
        stored w !! i = Some c
        /\ Conflict.id c = conflictId
        /\ (forall j d, j < i -> stored w !! j = Some d ->
                        Conflict.id d <> conflictId)
        /\ Ledger.dismissConflict h conflictId w
           = (Some c', {| stored := <[i := c']> (stored w);
                          tick := S (tick w) |})
        /\ Conflict.status c' = Conflict.dismissed
        /\ Conflict.resolvedAt c' = Some (Host.isoTime h (tick w))
        /\ Conflict.resolution c' = Conflict.resolution c
        /\ Conflict.resolutionNote c' = Conflict.resolutionNote c
        /\ Props5.sameEvidence c c').
Proof.
  unfold Ledger.dismissConflict. split; [by intros ->|]. split.
  - intros Hnone. destruct (String.eqb conflictId ""); [done|].
    cbv [bind Ledger.nowISO].
    match goal with
    | |- context [Ledger.updateConflict ?a ?u ?w'] =>
        destruct (updateConflict_cases a u w')
          as [[-> _]|(i & c & Hc & Hid & _ & _)]
    end; [done|].
    exfalso. apply (Hnone c); [|done]. cbn in Hc.
    apply list_elem_of_In. by eapply list_elem_of_lookup_2.
  - intros Hid (c0 & Hin & Hc0). apply String.eqb_neq in Hid. rewrite Hid.
    cbv [bind Ledger.nowISO].
    match goal with
    | |- context [Ledger.updateConflict ?a ?u ?w'] =>
        destruct (updateConflict_cases a u w')
          as [[_ Hnone]|(i & c & Hc & Hcid & Hfirst & ->)]
    end.
    + exfalso. by apply (Hnone c0).
    + cbn in Hc, Hfirst. eexists i, c, _.
      split; [done|]. split; [done|]. split; [done|]. split; [reflexivity|].
      split; [done|]. split; [done|]. split; [done|]. split; [done|].
      apply sameEvidence_merge.
Qed.

Lemma dismissConflict_spec_witness :
  let w1 := snd (Engine.runFullScan SampleHosts.apiHost SampleHosts.defaults
                                    SampleHosts.emptyWorld) in
  "conflict-0" <> ""
  /\ (exists c, In c (stored w1) /\ Conflict.id c = "conflict-0")
  /\ (forall c, In c (stored w1) -> Conflict.id c <> "no-such-id")
  /\ fst (Ledger.dismissConflict SampleHosts.apiHost "no-such-id" w1) = None
  /\ exists c', fst (Ledger.dismissConflict SampleHosts.apiHost "conflict-0" w1)
                = Some c'
                /\ Conflict.status c' = Conflict.dismissed.
Proof.
  intros w1.
  assert (Hid : "conflict-0" <> "") by done.
  assert (Hex : exists c, In c (stored w1) /\ Conflict.id c = "conflict-0").
  { assert (E : existsb (fun c => String.eqb (Conflict.id c) "conflict-0")
                        (stored w1) = true) by (by vm_compute).
    apply existsb_exists in E as (c & Hc & Hid').
    exists c. split; [exact Hc|]. by apply String.eqb_eq. }
  assert (Hno : forall c, In c (stored w1) -> Conflict.id c <> "no-such-id").
  { assert (E : forallb (fun c => negb (String.eqb (Conflict.id c) "no-such-id"))
                        (stored w1) = true) by (by vm_compute).
    intros c Hc. rewrite forallb_forall in E. specialize (E c Hc).
    apply negb_true_iff in E. by apply String.eqb_neq. }
  destruct (dismissConflict_spec SampleHosts.apiHost "conflict-0" w1)
    as (_ & _ & Hok).
  destruct (dismissConflict_spec SampleHosts.apiHost "no-such-id" w1)
    as (_ & Hmiss & _).
  split; [exact Hid|]. split; [exact Hex|]. split; [exact Hno|].
  split; [exact (proj1 (Hmiss Hno))|].
  destruct (Hok Hid Hex) as (i & c & c' & _ & _ & _ & Heq & Hst & _).
  exists c'. split; [by rewrite Heq|exact Hst].
Defined.

(** X14. Resolving or dismissing never removes, adds or reorders stored
    conflicts and never changes what was detected: after either call
    the stored list has, position by position, records with the same
    id, sides, contents, analysis, detection time and metadata as
    before. *)
Theorem lifecycle_keeps_evidence (h : Host.t)
        (conflictId resolution note : string) (w : World) :
  Forall2 Props5.sameEvidence (stored w)
          (stored (snd (Ledger.resolveConflict h conflictId resolution note w)))
  /\ Forall2 Props5.sameEvidence (stored w)
             (stored (snd (Ledger.dismissConflict h conflictId w))).
Proof.
  assert (Hsame : Forall2 Props5.sameEvidence (stored w) (stored w)).
  { apply Forall_Forall2_diag, Forall_forall. intros; apply sameEvidence_refl. }
  split.
  - unfold Ledger.resolveConflict.
    destruct (_ || _); [done|]. destruct (negb _); [done|].
    cbv [bind Ledger.nowISO].
    match goal with
    | |- context [Ledger.updateConflict ?a ?u ?w'] =>
        exact (updateConflict_evidence a u w')
    end.
  - unfold Ledger.dismissConflict.
    destruct (String.eqb conflictId ""); [done|].
    cbv [bind Ledger.nowISO].
    match goal with
    | |- context [Ledger.updateConflict ?a ?u ?w'] =>
        exact (updateConflict_evidence a u w')
    end.
Qed.

(** ** Queries *)

Section QueryFacts.
Import Queries Props5.

Lemma status_counts (l : list Conflict.t) :
  length l
  = length (List.filter (hasStatus Conflict.open) l)
    + length (List.filter (hasStatus Conflict.resolved) l)
    + length (List.filter (hasStatus Conflict.dismissed) l).
Proof.
  induction l as [|c l IH]; [done|]. cbn [List.filter length].
  unfold hasStatus in *. destruct (Conflict.status c); cbn [length]; lia.
Qed.

Lemma severity_counts (l : list Conflict.t) :
  length (List.filter (hasSeverity "high") l)
  + length (List.filter (hasSeverity "medium") l)
  + length (List.filter (hasSeverity "low") l)
  <= length l.
Proof.
  induction l as [|c l IH]; [done|]. cbn [List.filter length].
  unfold hasSeverity in *. destruct (Conflict.severity c) as [| | | |s| |];
    cbn [length]; try lia.
  destruct (String.eqb_spec s "high") as [->|_]; [cbn; lia|].
  destruct (String.eqb_spec s "medium") as [->|_]; [cbn; lia|].
  destruct (String.eqb s "low"); cbn; lia.
Qed.

Lemma newestFirst_true (dateOf : string -> option Z) (a b : Conflict.t) :
  dateOf (Conflict.detectedAt a) <> None ->
  dateOf (Conflict.detectedAt b) <> None ->
  newestFirst dateOf a b = true -> detectedNoEarlier dateOf a b.
Proof.
  unfold newestFirst, detectedNoEarlier.
  destruct (dateOf (Conflict.detectedAt a)),
    (dateOf (Conflict.detectedAt b)); try done.
  intros _ _. apply Z.leb_le.
Qed.

Lemma newestFirst_false (dateOf : string -> option Z) (a b : Conflict.t) :
  dateOf (Conflict.detectedAt a) <> None ->
  dateOf (Conflict.detectedAt b) <> None ->
  newestFirst dateOf a b = false -> detectedNoEarlier dateOf b a.
Proof.
  unfold newestFirst, detectedNoEarlier.
  destruct (dateOf (Conflict.detectedAt a)),
    (dateOf (Conflict.detectedAt b)); try done.
  intros _ _ H. apply Z.leb_gt in H. lia.
Qed.

Lemma detectedNoEarlier_trans (dateOf : string -> option Z)
      (a b c : Conflict.t) :
  detectedNoEarlier dateOf a b -> detectedNoEarlier dateOf b c ->
  detectedNoEarlier dateOf a c.
Proof.
  unfold detectedNoEarlier.
  destruct (dateOf (Conflict.detectedAt a)),
    (dateOf (Conflict.detectedAt b)),
    (dateOf (Conflict.detectedAt c)); try done. lia.
Qed.

Lemma sorted_newest (dateOf : string -> option Z) (l : list Conflict.t) :
  Forall (fun c => dateOf (Conflict.detectedAt c) <> None) l ->
  Props3.sortedBy (detectedNoEarlier dateOf)
                  (Discovery.stableSort (newestFirst dateOf) l).
Proof.
  apply (stableSort_sorted
           (newestFirst dateOf) (detectedNoEarlier dateOf)
           (fun c => dateOf (Conflict.detectedAt c) <> None)).
  - apply newestFirst_true.
  - apply newestFirst_false.
  - apply detectedNoEarlier_trans.
Qed.

Lemma isTopic_iff (topicId : string) (t : option string) :
  isTopic topicId t = true <-> t = Some topicId.
Proof.
  unfold isTopic. destruct t as [k|]; [|done].
  rewrite String.eqb_eq. split; [by intros ->|by intros [= ->]].
Qed.
End QueryFacts.

(** X15. The statistics count every stored conflict under exactly one
    of open, resolved and dismissed, so the three add up to the total;
    the three severity counts add up to at most the total; and asking
    for them changes nothing. *)
Theorem getConflictStats_totals (w : World) :
  let s := fst (Queries.getConflictStats w) in
  snd (Queries.getConflictStats w) = w
  /\ Queries.total s = length (stored w)
  /\ Queries.total s
     = Queries.open s + Queries.resolved s + Queries.dismissed s
  /\ Queries.highSeverity s + Queries.mediumSeverity s + Queries.lowSeverity s
     <= Queries.total s.
Proof.
  cbn. split; [done|]. split; [done|].
  split; [apply status_counts|apply severity_counts].
Qed.

(** X16. The conflicts of a summary and the conflicts of a topic are
    the stored conflicts that have the summary, or the topic, on either
    side: for both queries the result is a rearrangement of the matching
    stored conflicts, so each of them appears as often as it is stored
    and none else appears, and it is newest first when the detection
    times parse; an empty id gives the empty list; neither query changes
    the world. *)
Theorem conflict_queries (dateOf : string -> option Z) (key : string)
        (w : World) :
  let forSummary := Queries.getConflictsForSummary dateOf key w in
  let forTopic := Queries.getConflictsForTopic dateOf key w in
  snd forSummary = w /\ snd forTopic = w
  /\ (key = "" -> fst forSummary = [] /\ fst forTopic = [])
  /\ (key <> "" ->
      fst forSummary
      ≡ₚ List.filter
           (fun c => String.eqb (Conflict.olderSummaryId c) key
                     || String.eqb (Conflict.newerSummaryId c) key)
           (stored w)
      /\ fst forTopic
         ≡ₚ List.filter
              (fun c => Queries.isTopic key (Conflict.olderTopicId c)
                        || Queries.isTopic key (Conflict.newerTopicId c))
              (stored w)
      /\ (forall c, In c (fst forSummary)
                    <-> In c (stored w) /\ Props5.involvesSummary key c)
      /\ (forall c, In c (fst forTopic)
                    <-> In c (stored w) /\ Props5.involvesTopic key c)
      /\ (Forall (fun c => dateOf (Conflict.detectedAt c) <> None) (stored w) ->
          Props3.sortedBy (Props5.detectedNoEarlier dateOf) (fst forSummary)
          /\ Props3.sortedBy (Props5.detectedNoEarlier dateOf) (fst forTopic))).
Proof.
  cbv zeta. unfold Queries.getConflictsForSummary, Queries.getConflictsForTopic.
  destruct (String.eqb_spec key "") as [->|Hne].
  - cbn. repeat split; done.
  - cbv [bind ret Ledger.getAllConflicts]. cbn [fst snd].
    split; [done|]. split; [done|]. split; [done|]. intros _.
    split; [apply stableSort_perm|]. split; [apply stableSort_perm|].
    split; [|split].
    + intros c. rewrite stableSort_In, filter_In, orb_true_iff, !String.eqb_eq.
      reflexivity.
    + intros c. rewrite stableSort_In, filter_In, orb_true_iff, !isTopic_iff.
      reflexivity.
    + intros Hd. split; apply sorted_newest.
      * apply List.Forall_forall. intros c Hc. apply filter_In in Hc as [Hc _].
        rewrite List.Forall_forall in Hd. by apply Hd.
      * apply List.Forall_forall. intros c Hc. apply filter_In in Hc as [Hc _].
        rewrite List.Forall_forall in Hd. by apply Hd.
Qed.

Lemma conflict_queries_witness :
  let w1 := snd (Engine.runFullScan SampleHosts.apiHost SampleHosts.defaults
                                    SampleHosts.emptyWorld) in
  let dateOf := fun _ : string => Some 0%Z in
  "s1" <> "" /\ "backend" <> ""
  /\ Forall (fun c => dateOf (Conflict.detectedAt c) <> None) (stored w1)
  /\ length (fst (Queries.getConflictsForSummary dateOf "s1" w1)) = 2
  /\ Props3.sortedBy (Props5.detectedNoEarlier dateOf)
                     (fst (Queries.getConflictsForSummary dateOf "s1" w1))
  /\ length (fst (Queries.getConflictsForTopic dateOf "backend" w1))
     = length (stored w1)
  /\ fst (Queries.getConflictsForTopic dateOf "backend" w1) ≡ₚ stored w1.
Proof.
  intros w1 dateOf.
  assert (Hne : "s1" <> "") by done.
  assert (Hnb : "backend" <> "") by done.
  assert (Hd : Forall (fun c => dateOf (Conflict.detectedAt c) <> None)
                      (stored w1)).
  { apply List.Forall_forall. intros c _. done. }
  assert (Hall : List.filter
                   (fun c => Queries.isTopic "backend" (Conflict.olderTopicId c)
                             || Queries.isTopic "backend"
                                  (Conflict.newerTopicId c))
                   (stored w1) = stored w1) by (by vm_compute).
  split; [exact Hne|]. split; [exact Hnb|]. split; [exact Hd|].
  split; [by vm_compute|].
  destruct (conflict_queries dateOf "s1" w1) as (_ & _ & _ & H).
  destruct (H Hne) as (_ & _ & _ & _ & Hs). split; [exact (proj1 (Hs Hd))|].
  destruct (conflict_queries dateOf "backend" w1) as (_ & _ & _ & H').
  destruct (H' Hnb) as (_ & Hp & _). rewrite Hall in Hp.
  split; [by rewrite Hp|exact Hp].
Defined.

(** ** Where stored conflicts come from *)

Section OriginFacts.
Import Props Props4 Props6.
Variable h : Host.t.

Lemma verifySingleCandidate_records (c : Candidate.t) (w : World)
      (conflict : Conflict.t) :
  fst (Verify.verifySingleCandidate h c w) = Some conflict ->
  records conflict c /\ accepts h c = true.
Proof.
  unfold accepts, Verify.verifySingleCandidate.
  destruct (Host.complete h c) as [result|]; [|done].
  destruct (Host.content result) as [parsed|]; [|done].
  destruct (Verify.rejected h parsed) as [[|]|]; [done| |done].
  cbn. intros [= <-]. by repeat split.
Qed.

Lemma mapM_verify_records (l : list Candidate.t) (w : World)
      (conflict : Conflict.t) :
  In conflict (omap (fun x => x)
                    (fst (mapM (Verify.verifySingleCandidate h) l w))) ->
  exists c, In c l /\ records conflict c /\ accepts h c = true.
Proof.
  revert w. induction l as [|c l IH]; intros w; [done|].
  cbn [mapM]. cbv [bind ret].
  pose proof (verifySingleCandidate_records c w) as Hone.
  destruct (Verify.verifySingleCandidate h c w) as [r w1].
  specialize (IH w1).
  destruct (mapM (Verify.verifySingleCandidate h) l w1) as [rs w2].
  cbn [fst snd] in *. destruct r as [x|]; cbn.
  - intros [<-|Hin].
    + destruct (Hone x eq_refl) as [Hr Ha]. exists c.
      split; [by left|]. by split.
    + destruct (IH Hin) as (c' & Hc' & H'). exists c'. split; [by right|done].
  - intros Hin. destruct (IH Hin) as (c' & Hc' & H').
    exists c'. split; [by right|done].
Qed.

Lemma slice_In {X : Type} (i j : nat) (l : list X) (x : X) :
  In x (Verify.slice i j l) -> In x l.
Proof.
  unfold Verify.slice. intros H. apply firstn_In in H.
  revert l H. induction i as [|i IH]; intros [|y l]; cbn; try done.
  intros H. right. by apply IH.
Qed.

Lemma verifyBatches_records (toVerify : list Candidate.t)
      (starts : list nat) (verified : list Conflict.t) (w : World)
      (conflict : Conflict.t) :
  In conflict (fst (Verify.verifyBatches h toVerify starts verified w)) ->
  In conflict verified
  \/ exists c, In c toVerify /\ records conflict c /\ accepts h c = true.
Proof.
  revert verified w. induction starts as [|i starts IH]; intros verified w.
  - cbn. by left.
  - cbn [Verify.verifyBatches]. cbv [bind Verify.verifyBatch ret].
    pose proof (mapM_verify_records
                  (Verify.slice i (i + Patterns.MAX_CONCURRENT_AI_REQUESTS)
                                toVerify) w conflict) as Hb.
    destruct (mapM (Verify.verifySingleCandidate h) _ w) as [results w'].
    cbn [fst snd] in *. cbv beta iota zeta. intros Hin.
    apply IH in Hin as [Hin|Hin]; [|by right].
    apply in_app_iff in Hin as [Hin|Hin]; [by left|].
    destruct (Hb Hin) as (c & Hc & H'). right. exists c.
    split; [by apply slice_In in Hc|done].
Qed.

Lemma verifyConflicts_records (candidates : list Candidate.t)
      (cap : option nat) (w : World) (conflict : Conflict.t) :
  In conflict (fst (Verify.verifyConflicts h candidates cap w)) ->
  exists c, In c candidates /\ records conflict c /\ accepts h c = true.
Proof.
  unfold Verify.verifyConflicts.
  destruct (length candidates =? 0); [done|].
  destruct (negb (Host.hasEnabledProvider h)); [done|].
  intros Hin. apply verifyBatches_records in Hin as [[]|(c & Hc & H')].
  exists c. split; [by apply firstn_In in Hc|done].
Qed.

Lemma heuristicOnly_records (candidates : list Candidate.t) (w : World)
      (conflict : Conflict.t) :
  In conflict (fst (Engine.heuristicOnly h candidates w)) ->
  heuristicRecord conflict
  /\ exists c, In c candidates /\ records conflict c.
Proof.
  unfold Engine.heuristicOnly.
  assert (Hall : forall c,
             In c (List.filter
                     (fun c => Qle_bool 0.5 (Candidate.heuristicScore c))
                     candidates) ->
             In c candidates
             /\ Qle_bool 0.5 (Candidate.heuristicScore c) = true)
    by (intros c; apply filter_In).
  revert Hall.
  generalize (List.filter
                (fun c => Qle_bool 0.5 (Candidate.heuristicScore c))
                candidates) as l.
  intros l. revert w. induction l as [|c l IH]; intros w Hall; [done|].
  cbn [mapM]. cbv [bind ret].
  assert (Hc : Engine.heuristicConflict h c w
               = (fst (Engine.heuristicConflict h c w),
                  {| stored := stored w; tick := S (S (tick w)) |}))
    by reflexivity.
  rewrite Hc.
  specialize (IH {| stored := stored w; tick := S (S (tick w)) |}).
  destruct (mapM (Engine.heuristicConflict h) l _) as [ys w'].
  cbn [fst snd] in *. intros [<-|Hin].
  - destruct (Hall c) as [Hin Hscore]; [by left|].
    split; [by repeat split|]. exists c. by repeat split.
  - apply IH; [|done]. intros c' Hc'. apply Hall. by right.
Qed.

(** Either creation path records candidates of the list it was given. *)
Lemma created_records (judge : bool) (cs : list Candidate.t)
      (cap : option nat) (w : World) (conflict : Conflict.t) :
  In conflict (fst ((if judge then Verify.verifyConflicts h cs cap
                     else Engine.heuristicOnly h cs) w)) ->
  (judge = false -> heuristicRecord conflict)
  /\ exists c, In c cs /\ records conflict c.
Proof.
  destruct judge.
  - intros Hin. apply verifyConflicts_records in Hin as (c & Hc & Hr & _).
    split; [done|]. by exists c.
  - intros Hin. apply heuristicOnly_records in Hin as [Hh Hc]. by split.
Qed.

Lemma newSummaryCandidates_sides (summary : Summary.t)
      (comparables : list Summary.t) (c : Candidate.t) :
  In c (Engine.newSummaryCandidates summary comparables) ->
  exists existing,
    In existing comparables
    /\ ((Candidate.olderSummaryId c = Summary.id summary
         /\ Candidate.newerSummaryId c = Summary.id existing)
        \/ (Candidate.olderSummaryId c = Summary.id existing
            /\ Candidate.newerSummaryId c = Summary.id summary)).
Proof.
  unfold Engine.newSummaryCandidates. rewrite in_flat_map.
  intros (existing & He & Hc). exists existing. split; [done|].
  destruct (Discovery.timeLe _ _);
    apply candidatesOf_fields in Hc as (H1 & H2 & _); [right|left]; done.
Qed.

Lemma comparablesOf_In (summary : Summary.t) (existing : list Summary.t)
      (e : Summary.t) :
  In e (Engine.comparablesOf summary existing) ->
  In e existing /\ Summary.id e <> Summary.id summary.
Proof.
  unfold Engine.comparablesOf. rewrite filter_In. intros [He Hp].
  split; [done|]. destruct (String.eqb_spec (Summary.id e) (Summary.id summary));
    done.
Qed.
End OriginFacts.

(** X17. [checkNewSummary] appends the conflicts it returns to the
    ledger and changes nothing else in it. Each of them is open and
    unresolved and has the new summary on one side and, on the other, a
    summary of the store with a different id: the new summary is never
    compared with itself. A summary without an id, or a store that
    cannot be read, gives no conflicts and leaves the world as it was. *)
Theorem checkNewSummary_origin (h : Host.t) (summary : Summary.t)
        (useAI : bool) (w : World) :
  let r := Engine.checkNewSummary h summary useAI w in
  stored (snd r) = stored w ++ fst r
  /\ (Summary.id summary = "" \/ Host.dbGetAll h = None -> r = ([], w))
  /\ Forall (fun conflict =>
               Props.fresh conflict
               /\ exists all topics existing,
                   Host.dbGetAll h = Some (all, topics)
                   /\ In existing all
                   /\ Summary.id existing <> Summary.id summary
                   /\ Props6.pairs conflict summary existing)
            (fst r).
Proof.
  cbv zeta. unfold Engine.checkNewSummary.
  destruct (String.eqb_spec (Summary.id summary) "") as [E|E].
  { cbn. rewrite app_nil_r. repeat split; try done; try constructor. }
  destruct (Host.dbGetAll h) as [[all topics]|].
  2:{ cbn. rewrite app_nil_r. repeat split; try done; try constructor. }
  assert (Hedge : forall X (x y : X),
             Summary.id summary = "" \/ Some (all, topics) = None -> x = y)
    by (intros X x y [?|?]; done).
  destruct (length all =? 0).
  { cbn. rewrite app_nil_r. split; [done|]. split; [apply Hedge|constructor]. }
  destruct (length (Engine.comparablesOf summary all) =? 0).
  { cbn. rewrite app_nil_r. split; [done|]. split; [apply Hedge|constructor]. }
  destruct (length (Engine.newSummaryCandidates summary _) =? 0).
  { cbn. rewrite app_nil_r. split; [done|]. split; [apply Hedge|constructor]. }
  cbv [bind ret].
  set (judge := useAI && (if useAI then Host.hasEnabledProvider h else false)).
  set (cs := Discovery.dedup
               [] (Engine.newSummaryCandidates
                     summary (Engine.comparablesOf summary all))).
  pose proof (created_fresh h judge cs (Some 10) w) as Hc.
  pose proof (created_records h judge cs (Some 10) w) as Hrec.
  cbn zeta in Hc.
  destruct ((if judge then Verify.verifyConflicts h cs (Some 10)
             else Engine.heuristicOnly h cs) w) as [vs w1].
  destruct Hc as [Hs Hf]. cbn [fst snd] in *.
  pose proof (forEachM_save vs w1) as Hsave.
  destruct (forEachM Ledger.saveConflict vs w1) as [u w2].
  cbn [fst snd] in *. subst w2. cbn [stored]. rewrite Hs.
  split; [done|]. split; [apply Hedge|].
  apply List.Forall_forall. intros conflict Hin.
  rewrite List.Forall_forall in Hf. split; [by apply Hf|].
  destruct (Hrec conflict Hin) as (_ & c & Hc & Hr).
  apply dedup_In, newSummaryCandidates_sides in Hc as (existing & He & Hsides).
  apply comparablesOf_In in He as [He Hid].
  exists all, topics, existing. split; [done|]. split; [done|]. split; [done|].
  destruct Hr as (Ho & Hn & _). unfold Props6.pairs. rewrite Ho, Hn.
  exact Hsides.
Qed.

Lemma checkNewSummary_origin_witness :
  let noStore := {| Host.dbGetAll := None;
                    Host.hasEnabledProvider := true;
                    Host.complete := fun _ => Some SampleHosts.confirming;
                    Host.coerceNumber := fun _ => None;
                    Host.randomUUID := SampleHosts.numbered "conflict-";
                    Host.isoTime := SampleHosts.numbered "time-" |} in
  (Summary.id SampleHosts.lateArrival = "" \/ Host.dbGetAll noStore = None)
  /\ Engine.checkNewSummary noStore SampleHosts.lateArrival true
                            SampleHosts.emptyWorld
     = ([], SampleHosts.emptyWorld).
Proof.
  intros noStore.
  assert (H : Summary.id SampleHosts.lateArrival = ""
              \/ Host.dbGetAll noStore = None) by (by right).
  split; [exact H|].
  exact (proj1 (proj2 (checkNewSummary_origin
                         noStore SampleHosts.lateArrival true
                         SampleHosts.emptyWorld)) H).
Defined.

(** X18. Every conflict that a full scan persists records a candidate
    that this scan found whose deduplication key no stored conflict had;
    without a judge it is filled in by the heuristic alone: type
    [approach_conflict], a heuristic score of at least 0.5 that is also
    its confidence score, severity [high] from 0.7 on and [medium]
    below, no model and no tokens used. *)
Theorem runFullScan_origin (h : Host.t) (o : Engine.ScanOptions) (w : World) :
  Forall (fun conflict =>
            (Host.hasEnabledProvider h = false ->
             Props6.heuristicRecord conflict)
            /\ exists c,
                In c (Engine.findCandidateConflicts h)
                /\ Props4.records conflict c
                /\ ~ In (Candidate.keyOf c) (map Conflict.keyOf (stored w)))
         (Engine.conflicts (fst (Engine.runFullScan h o w))).
Proof.
  unfold Engine.runFullScan.
  destruct (length (Engine.filteredCandidates h o) =? 0); [constructor|].
  cbv [bind Ledger.getAllConflicts].
  destruct (length (Engine.newCandidates h o (stored w)) =? 0); [constructor|].
  pose proof (created_records
                h (Host.hasEnabledProvider h)
                (Engine.newCandidates h o (stored w))
                (Some (match Engine.maxCandidates o with
                       | Some n => n | None => 20 end)) w) as Hrec.
  destruct ((if Host.hasEnabledProvider h
             then Verify.verifyConflicts h _ _
             else Engine.heuristicOnly h _) w) as [vs w1].
  destruct (forEachM Ledger.saveConflict vs w1) as [u w2].
  cbn [fst snd Engine.conflicts] in *.
  apply List.Forall_forall. intros conflict Hin.
  destruct (Hrec conflict Hin) as (Hh & c & Hc & Hr).
  split; [done|]. exists c.
  apply newCandidates_In in Hc as [Hf Hnew].
  unfold Engine.filteredCandidates in Hf. apply filter_In in Hf as [Hf _].
  done.
Qed.

Lemma runFullScan_origin_witness :
  let h := SampleHosts.host [Samples.apiOlder; Samples.apiNewer] false
                            (fun _ => None) in
  let r := Engine.runFullScan h SampleHosts.defaults SampleHosts.emptyWorld in
  Host.hasEnabledProvider h = false
  /\ Engine.verified (fst r) = 2
  /\ Forall Props6.heuristicRecord (Engine.conflicts (fst r)).
Proof.
  intros h r.
  assert (Hp : Host.hasEnabledProvider h = false) by done.
  split; [exact Hp|]. split; [by vm_compute|].
  pose proof (runFullScan_origin h SampleHosts.defaults SampleHosts.emptyWorld)
    as Hall.
  fold r in Hall. eapply Forall_impl; [exact Hall|].
  intros conflict [Hh _]. exact (Hh Hp).
Defined.
